(** * Leaky integrate-and-fire simulation (SNN-Exercise-1.py)

    A shallow embedding of the numerical cells of the notebook script:
    the Euler loop of Task 1, the rheobase search of Task 2, the spike
    counts of Task 3, the f-I sweep of Task 4 and the stimulus-duration
    search of Task 5.

    Python floats are IEEE-754 binary64 numbers; they are modelled by the
    primitive floats of Rocq, which have the same arithmetic (round to
    nearest even, infinities, NaN).  A [while] loop becomes a function with
    a fuel argument that returns [None] when the fuel is used up. *)

From Stdlib Require Import Floats ZArith List Bool Lia.
Import ListNotations.

Set Warnings "-inexact-float".
#[local] Open Scope float_scope.

(** ** Python numbers *)

(** [10**(-3)], [10**(-5)] and [10**(-12)]: an integer raised to a negative
    integer is evaluated by CPython as the float power, whose value here is
    the double nearest to the decimal fraction. *)
Definition ten_pow_m3 : float := 0.001.
Definition ten_pow_m5 : float := 0.00001.
Definition ten_pow_m12 : float := 0.000000000001.

(** An integer operand of a float operation is converted to a float first
    (exactly, for the magnitudes the script uses). *)
Definition float_of_int (z : Z) : float :=
  if (z <? 0)%Z then - of_uint63 (Uint63.of_Z (- z)) else of_uint63 (Uint63.of_Z z).

(** [i * 10**(-12)] for an integer [i]: [i] picoamperes. *)
Definition pA (i : Z) : float := float_of_int i * ten_pow_m12.

(** [x >= y] on floats; false as soon as one side is NaN. *)
Definition geb (x y : float) : bool := y <=? x.

(** [l == []] and [not len(l)]. *)
Definition is_empty {A : Type} (l : list A) : bool :=
  match l with [] => true | _ :: _ => false end.

(** ** Loops *)

(** [while cond: body].  The body may itself contain a loop and so may run
    out of fuel. *)
Fixpoint while_loop {St : Type} (fuel : nat) (cond : St -> bool)
    (body : St -> option St) (s : St) : option St :=
  if cond s then
    match fuel with
    | O => None
    | S fuel' =>
        match body s with
        | Some s' => while_loop fuel' cond body s'
        | None => None
        end
    end
  else Some s.

(** [for x in xs: body]. *)
Fixpoint for_loop {A St : Type} (xs : list A) (body : A -> St -> option St)
    (s : St) : option St :=
  match xs with
  | [] => Some s
  | x :: xs' =>
      match body x s with
      | Some s' => for_loop xs' body s'
      | None => None
      end
  end.

(** The state after [k] rounds of a loop body. *)
Fixpoint iterate {St : Type} (body : St -> option St) (k : nat) (s : St)
  : option St :=
  match k with
  | O => Some s
  | S k' =>
      match body s with
      | Some s' => iterate body k' s'
      | None => None
      end
  end.

(** The value of a variable after [k] rounds of [x += step], from [x0]: the
    [k]-th candidate of a search. *)
Fixpoint candidate (x0 step : float) (k : nat) : float :=
  match k with
  | O => x0
  | S k' => candidate x0 step k' + step
  end.

(** ** Parameters for Tasks 1-5 (the module-level globals) *)

Record Params : Type := mkParams {
  dt : float;
  R : float;
  tau_m : float;
  u_rest : float;
  u_reset : float;
  u_thres : float
}.

Definition reference : Params :=
  {| dt := ten_pow_m5;
     R := float_of_int (95 * 10 ^ 6);
     tau_m := 30 * ten_pow_m3;
     u_rest := (-65) * ten_pow_m3;
     u_reset := (-65) * ten_pow_m3;
     u_thres := (-50) * ten_pow_m3 |}.

(** ** The variables of one simulated run *)

Record Sim : Type := mkSim {
  t : float;
  u : float;
  t_i : list float;
  u_i : list float;
  t_spike : list float;
  n_spike : list Z
}.

Section OneStep.

Variable p : Params.

(** [du_dt = (-(u - u_rest) + R * I_syn) / tau_m] *)
Definition du_dt (I_syn : float) (u0 : float) : float :=
  (- (u0 - u_rest p) + R p * I_syn) / tau_m p.

(** [u += du_dt * dt] *)
Definition euler_forward (I_syn : float) (s : Sim) : Sim :=
  {| t := t s; u := u s + du_dt I_syn (u s) * dt p;
     t_i := t_i s; u_i := u_i s;
     t_spike := t_spike s; n_spike := n_spike s |}.

(** [u_i.append(u)] *)
Definition store_u (s : Sim) : Sim :=
  {| t := t s; u := u s;
     t_i := t_i s; u_i := u_i s ++ [u s];
     t_spike := t_spike s; n_spike := n_spike s |}.

(** [if u >= u_thres: t_spike.append(t); n_spike.append(n_id); u = u_reset] *)
Definition spike_condition (n_id : Z) (s : Sim) : Sim :=
  if geb (u s) (u_thres p) then
    {| t := t s; u := u_reset p;
       t_i := t_i s; u_i := u_i s;
       t_spike := t_spike s ++ [t s]; n_spike := n_spike s ++ [n_id] |}
  else s.

(** [t_i.append(t); t += dt] *)
Definition timestep_completed (s : Sim) : Sim :=
  {| t := t s + dt p; u := u s;
     t_i := t_i s ++ [t s]; u_i := u_i s;
     t_spike := t_spike s; n_spike := n_spike s |}.

(** The body of the [while t <= T] loop of Tasks 1 to 4, statement by
    statement. *)
Definition step (I_syn : float) (n_id : Z) (s : Sim) : Sim :=
  timestep_completed (spike_condition n_id (store_u (euler_forward I_syn s))).

(** The order of section 4.4 of the specification, for comparison: the
    sample is recorded after the spike check, steps (b,c), (d), (e), (f). *)
Definition step_spec_order (I_syn : float) (n_id : Z) (s : Sim) : Sim :=
  timestep_completed (store_u (spike_condition n_id (euler_forward I_syn s))).

(** [t = 0; u = u_rest] with the lists a run starts from. *)
Definition start (ts : list float) (ns : list Z) : Sim :=
  {| t := 0; u := u_rest p; t_i := []; u_i := [];
     t_spike := ts; n_spike := ns |}.

(** [while t <= T: ...] *)
Definition time_loop (T I_syn : float) (n_id : Z) (fuel : nat) (s : Sim)
  : option Sim :=
  while_loop fuel (fun s => t s <=? T) (fun s => Some (step I_syn n_id s)) s.

(** Task 1: one run from fresh lists with a constant current. *)
Definition run_simulation (T I_syn : float) (fuel : nat) : option Sim :=
  time_loop T I_syn 0%Z fuel (start [] []).

End OneStep.

(** [len(t_spike)] *)
Definition spike_count (s : Sim) : nat := length (t_spike s).

(** ** Task 2: the rheobase search *)

Module Task2.

(** The variables that live across the runs of the search; [t_i], [u_i],
    [n_spike], [t] and [u] are set anew by every run, [t_spike] is not. *)
Record Vars : Type := mkVars {
  I_syn : float;
  sim : Sim
}.

(** The body of [while t_spike == []]: one run, then [I_syn += step_I]. *)
Definition body (p : Params) (T step_I : float) (fuel : nat) (v : Vars)
  : option Vars :=
  match time_loop p T (I_syn v) 0%Z fuel (start p (t_spike (sim v)) []) with
  | Some s => Some {| I_syn := I_syn v + step_I; sim := s |}
  | None => None
  end.

(** [t_spike = []; I_syn = start_I]; the other variables of a run are set
    by the body before they are read. *)
Definition init (p : Params) (start_I : float) : Vars :=
  {| I_syn := start_I; sim := start p [] [] |}.

(** [t_spike = []; I_syn = start_I; while t_spike == []: ...]; the value
    printed afterwards is [I_syn]. *)
Definition find_rheobase (p : Params) (T start_I step_I : float)
    (fuel_search fuel : nat) : option Vars :=
  while_loop fuel_search (fun v => is_empty (t_spike (sim v)))
    (body p T step_I fuel) (init p start_I).

(** The cell as written: from 50 pA in steps of 1 pA, one second per run. *)
Definition task2 (fuel : nat) : option Vars :=
  find_rheobase reference 1 (pA 50) (pA 1) fuel fuel.

End Task2.

(** ** Task 3: spike counts for a list of currents *)

Module Task3.

(** The body of [for i in currents]: the run is repeated while it leaves
    [t_spike] empty; the count printed is [len(t_spike)]. *)
Definition count (p : Params) (T : float) (fuel_retry fuel : nat) (i : Z)
  : option nat :=
  let I_syn := pA i in
  option_map spike_count
    (while_loop fuel_retry (fun s => is_empty (t_spike s))
       (fun s => time_loop p T I_syn 0%Z fuel (start p (t_spike s) []))
       (start p [] [])).

Definition currents : list Z := [200; 250; 400; 600]%Z.

Definition task3 (fuel : nat) : option (list nat) :=
  for_loop currents
    (fun i printed =>
       option_map (fun n => printed ++ [n]) (count reference 1 fuel fuel i))
    [].

End Task3.

(** ** Task 4: the f-I sweep *)

Module Task4.

Record Vars : Type := mkVars {
  I_syn_i : list float;
  freq_i : list nat
}.

(** [range(lo, hi, 1)] *)
Definition range (lo hi : Z) : list Z :=
  map (fun k => (lo + Z.of_nat k)%Z) (seq 0 (Z.to_nat (hi - lo))).

(** The body of [for i in range(0,601,1)]. *)
Definition body (p : Params) (T : float) (fuel : nat) (i : Z) (v : Vars)
  : option Vars :=
  let I_syn := pA i in
  match run_simulation p T I_syn fuel with
  | Some s =>
      Some {| I_syn_i := I_syn_i v ++ [I_syn * float_of_int (10 ^ 12)];
              freq_i := freq_i v ++ [spike_count s] |}
  | None => None
  end.

Definition sweep_current (p : Params) (T : float) (currents : list Z)
    (fuel : nat) : option Vars :=
  for_loop currents (body p T fuel) {| I_syn_i := []; freq_i := [] |}.

Definition task4 (fuel : nat) : option Vars :=
  sweep_current reference 1 (range 0 601) fuel.

End Task4.

(** ** Task 5: the stimulus-duration search *)

Module Task5.

(** [I_syn], [t_stimuli] and the result list [t_st] next to the variables
    of the run.  Of the run's lists only [n_spike] outlives a run. *)
Record Vars : Type := mkVars {
  I_syn : float;
  t_stimuli : float;
  t_st : list float;
  sim : Sim
}.

Definition with_sim (v : Vars) (s : Sim) : Vars :=
  {| I_syn := I_syn v; t_stimuli := t_stimuli v; t_st := t_st v; sim := s |}.

(** [if t >= t_stimuli: I_syn = 0] *)
Definition cut_stimulus (v : Vars) : Vars :=
  if geb (t (sim v)) (t_stimuli v) then
    {| I_syn := 0; t_stimuli := t_stimuli v; t_st := t_st v; sim := sim v |}
  else v.

(** The spike branch of Task 5: that of the other tasks, followed by
    [if len(t_st) < index+1: t_st.append(t)]. *)
Definition spike_condition5 (p : Params) (index : nat) (n_id : Z) (v : Vars)
  : Vars :=
  if geb (u (sim v)) (u_thres p) then
    {| I_syn := I_syn v; t_stimuli := t_stimuli v;
       t_st := if (length (t_st v) <? index + 1)%nat
               then t_st v ++ [t (sim v)] else t_st v;
       sim := spike_condition p n_id (sim v) |}
  else v.

(** The body of [while t <= 0.15]. *)
Definition step (p : Params) (index : nat) (n_id : Z) (v : Vars) : Vars :=
  let v1 := cut_stimulus v in
  let v2 := with_sim v1 (store_u (euler_forward p (I_syn v1) (sim v1))) in
  let v3 := spike_condition5 p index n_id v2 in
  with_sim v3 (timestep_completed p (sim v3)).

(** The head of the body of [while not len(n_spike)]:
    [t_stimuli += step_duration], fresh [t_i], [u_i] and [t_spike], [t = 0],
    [u = u_rest].  [I_syn], [n_spike] and [t_st] are kept. *)
Definition run_start (p : Params) (step_duration : float) (v : Vars) : Vars :=
  {| I_syn := I_syn v; t_stimuli := t_stimuli v + step_duration;
     t_st := t_st v; sim := start p [] (n_spike (sim v)) |}.

(** The body of [while not len(n_spike)]: one run with the next cutoff. *)
Definition body (p : Params) (T step_duration : float) (index : nat)
    (fuel : nat) (v : Vars) : option Vars :=
  while_loop fuel (fun v => t (sim v) <=? T)
    (fun v => Some (step p index 0%Z v)) (run_start p step_duration v).

(** [I_syn = i*10**(-12); n_spike = []; t_stimuli = 0] *)
Definition init (p : Params) (I : float) (t_st0 : list float) : Vars :=
  {| I_syn := I; t_stimuli := 0; t_st := t_st0; sim := start p [] [] |}.

(** The body of [for index, i in enumerate(currents)], given the amplitude
    and the list [t_st] so far. *)
Definition find_min_stimulus_duration (p : Params) (T I step_duration : float)
    (index : nat) (t_st0 : list float) (fuel_search fuel : nat) : option Vars :=
  while_loop fuel_search (fun v => is_empty (n_spike (sim v)))
    (body p T step_duration index fuel) (init p I t_st0).

Definition currents : list Z := [200; 400; 600]%Z.

(** [enumerate(l)] *)
Definition enumerate {A : Type} (l : list A) : list (nat * A) :=
  combine (seq 0 (length l)) l.

(** The cell as written; its result is the list [t_st]. *)
Definition task5 (fuel : nat) : option (list float) :=
  for_loop (enumerate currents)
    (fun '(index, i) t_st0 =>
       option_map t_st
         (find_min_stimulus_duration reference 0.15
            (pA i) 0.1 index t_st0 fuel fuel))
    [].

(** The stimulus the task text asks for: the amplitude up to the cutoff, zero
    from then on, as a function of the time alone. *)
Definition bounded (I t_cutoff : float) (t0 : float) : float :=
  if t0 <? t_cutoff then I else 0.

End Task5.

(** ** The runs without their sample lists

    What the searches and the sweep read from a run is the number of spikes
    (and, in Task 5, the first spike time).  [Core] keeps the clock, the
    potential and the lengths of the two spike lists; the functions below
    are the loops above on that projection, and are what is evaluated. *)

Record Core : Type := mkCore {
  c_t : float;
  c_u : float;
  c_t_spike : nat;
  c_n_spike : nat
}.

Definition core (s : Sim) : Core :=
  {| c_t := t s; c_u := u s;
     c_t_spike := length (t_spike s); c_n_spike := length (n_spike s) |}.

Definition core_step (p : Params) (I_syn : float) (c : Core) : Core :=
  let u1 := c_u c + du_dt p I_syn (c_u c) * dt p in
  if geb u1 (u_thres p) then
    {| c_t := c_t c + dt p; c_u := u_reset p;
       c_t_spike := S (c_t_spike c); c_n_spike := S (c_n_spike c) |}
  else
    {| c_t := c_t c + dt p; c_u := u1;
       c_t_spike := c_t_spike c; c_n_spike := c_n_spike c |}.

Definition core_loop (p : Params) (T I_syn : float) (fuel : nat) (c : Core)
  : option Core :=
  while_loop fuel (fun c => c_t c <=? T) (fun c => Some (core_step p I_syn c)) c.

Definition core_start (p : Params) (nt nn : nat) : Core :=
  {| c_t := 0; c_u := u_rest p; c_t_spike := nt; c_n_spike := nn |}.

(** The number of spikes of one run with a constant current, computed on
    the clock and the potential alone. *)
Fixpoint spikes_loop (dt0 R0 tau0 rest reset thres T I_syn : float)
    (fuel : nat) (t0 u0 : float) (n : nat) : option nat :=
  if t0 <=? T then
    match fuel with
    | O => None
    | S fuel' =>
        let u1 := u0 + ((- (u0 - rest) + R0 * I_syn) / tau0) * dt0 in
        if geb u1 thres
        then spikes_loop dt0 R0 tau0 rest reset thres T I_syn fuel' (t0 + dt0) reset (S n)
        else spikes_loop dt0 R0 tau0 rest reset thres T I_syn fuel' (t0 + dt0) u1 n
    end
  else Some n.

Definition core_count (p : Params) (T I_syn : float) (fuel : nat) : option nat :=
  spikes_loop (dt p) (R p) (tau_m p) (u_rest p) (u_reset p) (u_thres p)
    T I_syn fuel 0 (u_rest p) 0.

(** A fuel that suffices for every computation evaluated below. *)
Definition enough : nat := N.to_nat 200000.
#[global] Opaque enough.

(** The number of rounds of [while t <= T: ...; t += dt]; it does not depend
    on the potential. *)
Fixpoint ticks (dt0 T : float) (fuel : nat) (t0 : float) (n : nat) : option nat :=
  if t0 <=? T then
    match fuel with
    | O => None
    | S fuel' => ticks dt0 T fuel' (t0 + dt0) (S n)
    end
  else Some n.

(** The number of spikes in [k] rounds, from the potential [u0]. *)
Fixpoint spikes_in (dt0 R0 tau0 rest reset thres I_syn : float)
    (k : nat) (u0 : float) : nat :=
  match k with
  | O => O
  | S k' =>
      let u1 := u0 + ((- (u0 - rest) + R0 * I_syn) / tau0) * dt0 in
      if geb u1 thres
      then S (spikes_in dt0 R0 tau0 rest reset thres I_syn k' reset)
      else spikes_in dt0 R0 tau0 rest reset thres I_syn k' u1
  end.

(** The round of the first spike among [k] rounds from the potential [u0],
    counted from [n]; [None] when none of them spikes. *)
Fixpoint first_spike (dt0 R0 tau0 rest thres I_syn : float)
    (k : nat) (u0 : float) (n : nat) : option nat :=
  match k with
  | O => None
  | S k' =>
      let u1 := u0 + ((- (u0 - rest) + R0 * I_syn) / tau0) * dt0 in
      if geb u1 thres then Some (S n)
      else first_spike dt0 R0 tau0 rest thres I_syn k' u1 (S n)
  end.

(** With [u_reset = u_rest] every spike puts the run back to its start, so
    a run of [N] rounds whose first spike is in round [P] has [N / P]
    spikes. *)
Definition period_count (p : Params) (N : nat) (I_syn : float) : nat :=
  match first_spike (dt p) (R p) (tau_m p) (u_rest p) (u_thres p) I_syn
          N (u_rest p) 0 with
  | Some P => N / P
  | None => O
  end.

(** The same count on binary integers, for evaluation. *)
Definition period_count_Z (p : Params) (N : nat) (NZ : Z) (I_syn : float) : Z :=
  match first_spike (dt p) (R p) (tau_m p) (u_rest p) (u_thres p) I_syn
          N (u_rest p) 0 with
  | Some P => (NZ / Z.of_nat P)%Z
  | None => 0%Z
  end.

(** The sweep of Task 4 as a table: each current of the range with the spike
    count of its run. *)
Definition sweep_table : list (float * Z) :=
  match ticks (dt reference) 1 enough 0 0 with
  | Some N =>
      let NZ := Z.of_nat N in
      map (fun i => (pA i, period_count_Z reference N NZ (pA i))) (Task4.range 0 601)
  | None => []
  end.

(** Every pair of rows with [I1 <= I2] has counts [n1 <= n2]. *)
Definition monotone_table (l : list (float * Z)) : bool :=
  forallb (fun a =>
    forallb (fun b => implb (fst a <=? fst b) (snd a <=? snd b)%Z) l) l.

Module Core5.

Record Vars : Type := mkVars {
  I_syn : float;
  t_stimuli : float;
  t_st : list float;
  run : Core
}.

Definition core (v : Task5.Vars) : Vars :=
  {| I_syn := Task5.I_syn v; t_stimuli := Task5.t_stimuli v;
     t_st := Task5.t_st v; run := core (Task5.sim v) |}.

Definition step (p : Params) (index : nat) (v : Vars) : Vars :=
  let I := if geb (c_t (run v)) (t_stimuli v) then 0 else I_syn v in
  let u1 := c_u (run v) + du_dt p I (c_u (run v)) * dt p in
  {| I_syn := I; t_stimuli := t_stimuli v;
     t_st := if geb u1 (u_thres p) && (length (t_st v) <? index + 1)%nat
             then t_st v ++ [c_t (run v)] else t_st v;
     run := core_step p I (run v) |}.

Definition run_start (p : Params) (step_duration : float) (v : Vars) : Vars :=
  {| I_syn := I_syn v; t_stimuli := t_stimuli v + step_duration;
     t_st := t_st v; run := core_start p 0 (c_n_spike (run v)) |}.

Definition body (p : Params) (T step_duration : float) (index : nat)
    (fuel : nat) (v : Vars) : option Vars :=
  while_loop fuel (fun v => c_t (run v) <=? T)
    (fun v => Some (step p index v)) (run_start p step_duration v).

Definition init (p : Params) (I : float) (t_st0 : list float) : Vars :=
  {| I_syn := I; t_stimuli := 0; t_st := t_st0; run := core_start p 0 0 |}.

Definition find_min_stimulus_duration (p : Params) (T I step_duration : float)
    (index : nat) (t_st0 : list float) (fuel_search fuel : nat) : option Vars :=
  while_loop fuel_search (fun v => Nat.eqb (c_n_spike (run v)) 0)
    (body p T step_duration index fuel) (init p I t_st0).

End Core5.

(** ** Outcomes of a fuelled computation *)

(** [f] returns a value satisfying [P]: it does so for every large enough
    fuel. *)
Definition returns {A : Type} (f : nat -> option A) (P : A -> Prop) : Prop :=
  exists n, forall fuel, (n <= fuel)%nat -> exists a, f fuel = Some a /\ P a.

(** [f] does not return, whatever the fuel. *)
Definition diverges {A : Type} (f : nat -> option A) : Prop :=
  forall fuel, f fuel = None.

(** The run of Task 3 with 250 pA after its first 2995 steps: the state the
    loop body is entered with at the step of the first spike. *)
Definition before_first_spike : Sim :=
  Nat.iter 2995 (step reference (pA 250) 0%Z) (start reference [] []).

(** A finite, negative current of absurd size: [-1e300]. *)
Definition huge_negative : float := -1e300.

(** The state of a run with that current after two steps. *)
Definition after_two_steps : Sim :=
  step reference huge_negative 0%Z
    (step reference huge_negative 0%Z (start reference [] [])).

(** Two situations of the search of Task 5, given the list [t_st0] it
    started with: no spike so far, or a run whose first spike time is the
    value appended to [t_st]. *)
Definition nothing_reported (t_st0 : list float) (v : Task5.Vars) : Prop :=
  n_spike (Task5.sim v) = [] /\ t_spike (Task5.sim v) = []
  /\ Task5.t_st v = t_st0.

Definition first_spike_reported (t_st0 : list float) (v : Task5.Vars) : Prop :=
  exists x rest,
    t_spike (Task5.sim v) = x :: rest /\ Task5.t_st v = t_st0 ++ [x]
    /\ n_spike (Task5.sim v) <> [].

(** The samples of a potential trace that are at or above the threshold. *)
Definition supra_threshold (p : Params) (l : list float) : list float :=
  filter (fun x => geb x (u_thres p)) l.

(** A strong current and a horizon of three rounds, for small examples. *)
Definition microampere : float := 0.000001.
Definition three_rounds : float := 0.00002.

(** The loop of Task 5 over a list of currents, with the parameters, the
    horizon and the increment of the cutoff as arguments; [Task5.task5] is
    this loop for the values of the script. *)
Definition duration_sweep (p : Params) (T step_duration : float)
    (currents : list Z) (fuel : nat) : option (list float) :=
  for_loop (Task5.enumerate currents)
    (fun '(index, i) t_st0 =>
       option_map Task5.t_st
         (Task5.find_min_stimulus_duration p T (pA i) step_duration index t_st0
            fuel fuel))
    [].

(** The same loop on the projection of the runs, for evaluation. *)
Definition core_duration_sweep (p : Params) (T step_duration : float)
    (currents : list Z) (fuel : nat) : option (list float) :=
  for_loop (Task5.enumerate currents)
    (fun '(index, i) t_st0 =>
       option_map Core5.t_st
         (Core5.find_min_stimulus_duration p T (pA i) step_duration index t_st0
            fuel fuel))
    [].

(** The value Task 2 prints: [I_syn/(10**(-12))]. *)
Definition printed_pA (I_syn : float) : float := I_syn / ten_pow_m12.

(** Every pair of sweep indices [i1 <= i2] has currents [I1 <= I2]. *)
Definition increasing_currents (l : list Z) : bool :=
  forallb (fun i1 =>
    forallb (fun i2 => implb (i1 <=? i2)%Z (pA i1 <=? pA i2)) l) l.


(** * Properties *)

(** ** Loops and fuel *)

Section LoopFacts.

Context {St : Type}.
Variable cond : St -> bool.

(** More fuel, and a body that returns at least as often, do not change a
    result that was reached. *)
Lemma while_loop_mono (body body' : St -> option St) :
  (forall s r, body s = Some r -> body' s = Some r) ->
  forall n n' s r, (n <= n')%nat ->
    while_loop n cond body s = Some r -> while_loop n' cond body' s = Some r.
Proof.
  intros Hb n; induction n as [|n IH]; intros n' s r Hle; simpl.
  - destruct n'; simpl; destruct (cond s); congruence.
  - destruct n' as [|n']; [lia|]. simpl.
    destruct (cond s); [|congruence].
    destruct (body s) as [s1|] eqn:E; [|congruence].
    rewrite (Hb _ _ E). apply IH. lia.
Qed.

(** An invariant of the body holds on exit, where the condition fails. *)
Lemma while_loop_inv (body : St -> option St) (P : St -> Prop) :
  (forall s s', P s -> cond s = true -> body s = Some s' -> P s') ->
  forall n s r, P s -> while_loop n cond body s = Some r ->
    P r /\ cond r = false.
Proof.
  intros Hb n; induction n as [|n IH]; intros s r Hs; simpl.
  - destruct (cond s) eqn:C; [discriminate|].
    intros [= <-]; auto.
  - destruct (cond s) eqn:C.
    + destruct (body s) as [s1|] eqn:E; [|discriminate].
      apply IH. eapply Hb; eauto.
    + intros [= <-]; auto.
Qed.

(** A loop whose body keeps an invariant under which the condition holds
    never returns. *)
Lemma while_loop_diverges (body : St -> option St) (P : St -> Prop) :
  (forall s, P s -> cond s = true) ->
  (forall s s', P s -> body s = Some s' -> P s') ->
  forall n s, P s -> while_loop n cond body s = None.
Proof.
  intros Hc Hb n; induction n as [|n IH]; intros s Hs; simpl;
    rewrite (Hc _ Hs); [reflexivity|].
  destruct (body s) as [s1|] eqn:E; [|reflexivity].
  apply IH. eapply Hb; eauto.
Qed.

End LoopFacts.

(** A loop and the same loop on a projection of its state. *)
Lemma while_loop_abs {A B : Type} (abs : A -> B)
    (condA : A -> bool) (condB : B -> bool)
    (bodyA : A -> option A) (bodyB : B -> option B) :
  (forall a, condA a = condB (abs a)) ->
  (forall a, option_map abs (bodyA a) = bodyB (abs a)) ->
  forall n a,
    option_map abs (while_loop n condA bodyA a) = while_loop n condB bodyB (abs a).
Proof.
  intros Hc Hb n; induction n as [|n IH]; intros a; simpl; rewrite <- Hc.
  - destruct (condA a); reflexivity.
  - destruct (condA a); [|reflexivity].
    rewrite <- Hb. destruct (bodyA a) as [a1|]; simpl; [apply IH|reflexivity].
Qed.

(** From an evaluation of the projected computation to [returns]. *)
Lemma returns_by_core {A B : Type} (abs : A -> B) (f : nat -> option A)
    (g : nat -> option B) (P : A -> Prop) (Q : B -> bool) (n0 : nat) :
  (forall n, option_map abs (f n) = g n) ->
  (forall n n' a, (n <= n')%nat -> f n = Some a -> f n' = Some a) ->
  match g n0 with Some b => Q b | None => false end = true ->
  (forall a, Q (abs a) = true -> P a) ->
  returns f P.
Proof.
  intros Habs Hmono Hg HP. exists n0. intros k Hk.
  specialize (Habs n0). destruct (g n0) as [b|] eqn:E; [|discriminate].
  destruct (f n0) as [a|] eqn:F; [|discriminate].
  exists a. split; [eapply Hmono; eauto|].
  apply HP. simpl in Habs. congruence.
Qed.

(** What a fuelled computation returns does not depend on the fuel. *)
Lemma returns_unique {A : Type} (f : nat -> option A) (P : A -> Prop) n a :
  (forall n n' a, (n <= n')%nat -> f n = Some a -> f n' = Some a) ->
  returns f P -> f n = Some a -> P a.
Proof.
  intros Hmono [n0 H] E.
  destruct (H (Nat.max n n0)) as (a' & E' & Pa'); [lia|].
  apply (Hmono n (Nat.max n n0)) in E; [|lia]. congruence.
Qed.

(** ** Float comparisons *)

Lemma SFcompare_antisym (x y : spec_float) :
  SFcompare y x = option_map CompOpp (SFcompare x y).
Proof.
  destruct x as [[]|[]| |[] mx ex], y as [[]|[]| |[] my ey]; simpl; try reflexivity;
    rewrite (Z.compare_antisym ex ey); destruct (ex ?= ey)%Z; simpl; try reflexivity;
    pose proof (Pos.compare_cont_antisym mx my Eq) as H; simpl in H; rewrite <- H;
    destruct (Pos.compare_cont Eq mx my); reflexivity.
Qed.

(** [x < y] excludes [x >= y]. *)
Lemma ltb_not_geb (x y : float) : (x <? y) = true -> geb x y = false.
Proof.
  unfold geb. rewrite ltb_spec, leb_spec. unfold SFltb, SFleb.
  rewrite (SFcompare_antisym (Prim2SF x) (Prim2SF y)).
  destruct (SFcompare (Prim2SF x) (Prim2SF y)) as [[]|]; simpl; congruence.
Qed.

(** On numbers, [x >= y] fails only when [x < y]. *)
Lemma not_geb_ltb (x y : float) :
  is_nan x = false -> is_nan y = false -> geb x y = false -> (x <? y) = true.
Proof.
  unfold geb, is_nan. rewrite ltb_spec, leb_spec, !FloatAxioms.eqb_spec.
  unfold SFltb, SFleb, SFeqb.
  rewrite (SFcompare_antisym (Prim2SF x) (Prim2SF y)).
  destruct (Prim2SF x) as [[]|[]| |[] mx ex], (Prim2SF y) as [[]|[]| |[] my ey];
    simpl; try congruence;
    destruct (ex ?= ey)%Z; simpl; try congruence;
    destruct (Pos.compare_cont Eq mx my); simpl; congruence.
Qed.

Lemma ltb_not_nan (x y : float) :
  (x <? y) = true -> is_nan x = false /\ is_nan y = false.
Proof.
  unfold is_nan. rewrite ltb_spec, !FloatAxioms.eqb_spec. unfold SFltb, SFeqb.
  destruct (Prim2SF x) as [[]|[]| |[] mx ex], (Prim2SF y) as [[]|[]| |[] my ey];
    simpl; try congruence; intros _;
    rewrite ?Z.compare_refl, ?Pos.compare_cont_refl; auto.
Qed.

(** Float multiplication commutes. *)
Lemma mul_comm (x y : float) : x * y = y * x.
Proof.
  apply Prim2SF_inj. rewrite !mul_spec. unfold SF64mul, SFmul.
  destruct (Prim2SF x) as [[]|[]| |[] mx ex], (Prim2SF y) as [[]|[]| |[] my ey];
    try reflexivity;
    rewrite (Pos.mul_comm mx my), (Z.add_comm ex ey); reflexivity.
Qed.

(** ** The loop body *)

Lemma core_step_ok p I_syn n_id s :
  core (step p I_syn n_id s) = core_step p I_syn (core s).
Proof.
  unfold step, core_step, spike_condition, core. simpl.
  destruct (geb _ _); simpl; rewrite ?length_app; simpl; f_equal; lia.
Qed.

Lemma core_loop_ok p T I_syn n_id fuel s :
  option_map core (time_loop p T I_syn n_id fuel s)
  = core_loop p T I_syn fuel (core s).
Proof.
  unfold time_loop, core_loop. apply while_loop_abs; [reflexivity|].
  intros a; simpl. now rewrite core_step_ok.
Qed.

Lemma time_loop_mono p T I_syn n_id n n' s r :
  (n <= n')%nat ->
  time_loop p T I_syn n_id n s = Some r -> time_loop p T I_syn n_id n' s = Some r.
Proof. unfold time_loop. apply while_loop_mono. auto. Qed.

(** The sample a step stores is the integrated potential, whatever the spike
    check does afterwards. *)
Lemma step_u_i p I_syn n_id s :
  u_i (step p I_syn n_id s) = u_i s ++ [u (euler_forward p I_syn s)].
Proof. unfold step, spike_condition. simpl. destruct (geb _ _); reflexivity. Qed.

Lemma step_t_i p I_syn n_id s :
  t_i (step p I_syn n_id s) = t_i s ++ [t s] /\ t (step p I_syn n_id s) = t s + dt p.
Proof. unfold step, spike_condition. simpl. destruct (geb _ _); auto. Qed.

(** C6: the integrator is one forward-Euler update,
    [u + dt * ((-(u - u_rest) + R * I) / tau_m)], the same expression for
    every value of [u]; it changes nothing but [u], and that value is the
    sample the step stores. *)
Theorem euler_forward_update (p : Params) (I_syn : float) (n_id : Z) (s : Sim) :
  let u_next := u s + dt p * ((- (u s - u_rest p) + R p * I_syn) / tau_m p) in
  euler_forward p I_syn s =
    {| t := t s; u := u_next; t_i := t_i s; u_i := u_i s;
       t_spike := t_spike s; n_spike := n_spike s |}
  /\ u_i (step p I_syn n_id s) = u_i s ++ [u_next].
Proof.
  cbv zeta. rewrite step_u_i. unfold euler_forward, du_dt. simpl.
  rewrite (mul_comm (dt p)). split; reflexivity.
Qed.

(** C7: after the integration a step either finds the new potential at or
    above the threshold, appends exactly one spike [(t, n_id)] and sets [u]
    to [u_reset], or leaves the potential and both spike lists as they
    are.  One step never appends more than one spike. *)
Theorem spike_condition_once (p : Params) (I_syn : float) (n_id : Z) (s : Sim) :
  let u_new := u (euler_forward p I_syn s) in
  let s' := step p I_syn n_id s in
  (geb u_new (u_thres p) = true
   /\ t_spike s' = t_spike s ++ [t s] /\ n_spike s' = n_spike s ++ [n_id]
   /\ u s' = u_reset p /\ spike_count s' = S (spike_count s))
  \/
  (geb u_new (u_thres p) = false
   /\ t_spike s' = t_spike s /\ n_spike s' = n_spike s
   /\ u s' = u_new /\ spike_count s' = spike_count s).
Proof.
  simpl. unfold step, spike_condition, spike_count. simpl.
  destruct (geb _ _); simpl; [left|right]; repeat split; try reflexivity.
  rewrite length_app. simpl. lia.
Qed.

(** C1, as the code has it: the potential is stored right after the
    integration and before the spike check, so in a step that spikes the
    stored sample is the integrated potential, at or above the threshold,
    while the state is reset; the time sample and the clock come last. *)
Theorem sample_holds_candidate (p : Params) (I_syn : float) (n_id : Z) (s : Sim) :
  geb (u (euler_forward p I_syn s)) (u_thres p) = true ->
  let s' := step p I_syn n_id s in
  u_i s' = u_i s ++ [u (euler_forward p I_syn s)]
  /\ geb (last (u_i s') 0) (u_thres p) = true
  /\ t_spike s' = t_spike s ++ [t s]
  /\ u s' = u_reset p
  /\ t_i s' = t_i s ++ [t s]
  /\ t s' = t s + dt p.
Proof.
  intros H. cbv zeta. rewrite step_u_i, last_last.
  destruct (spike_condition_once p I_syn n_id s) as [(_ & Ht & _ & Hu & _)|(E & _)];
    [|congruence].
  destruct (step_t_i p I_syn n_id s). repeat split; assumption || reflexivity.
Qed.

Lemma ne_by_eqb (x y : float) : (x =? y) = false -> is_nan y = false -> x <> y.
Proof.
  unfold is_nan. intros E N ->. rewrite E in N. discriminate.
Qed.

(** C1, the step of the first spike of the 250 pA run: the sample stored is
    the potential above the threshold, not [u_reset]; recording it after the
    spike check, in the order the specification lists, would have stored
    [u_reset]. *)
Lemma sample_of_first_spike_not_reset :
  let s := before_first_spike in
  let s' := step reference (pA 250) 0%Z s in
  (t s <=? 1) = true
  /\ t_spike s = [] /\ t_spike s' = [t s]
  /\ u s' = u_reset reference
  /\ last (u_i s') 0 <> u_reset reference
  /\ (u_reset reference <? last (u_i s') 0) = true
  /\ last (u_i (step_spec_order reference (pA 250) 0%Z s)) 0 = u_reset reference.
Proof.
  vm_compute. repeat split; try reflexivity.
  apply ne_by_eqb; reflexivity.
Qed.

(** The step of the first spike satisfies the hypothesis of
    [sample_holds_candidate]. *)
Lemma sample_holds_candidate_at_first_spike :
  geb (u (euler_forward reference (pA 250) before_first_spike))
      (u_thres reference) = true
  /\ (let s' := step reference (pA 250) 0%Z before_first_spike in
      u_i s' = u_i before_first_spike
               ++ [u (euler_forward reference (pA 250) before_first_spike)]
      /\ geb (last (u_i s') 0) (u_thres reference) = true
      /\ t_spike s' = t_spike before_first_spike ++ [t before_first_spike]
      /\ u s' = u_reset reference
      /\ t_i s' = t_i before_first_spike ++ [t before_first_spike]
      /\ t s' = t before_first_spike + dt reference).
Proof.
  assert (H : geb (u (euler_forward reference (pA 250) before_first_spike))
                  (u_thres reference) = true) by (vm_compute; reflexivity).
  exact (conj H (sample_holds_candidate reference (pA 250) 0%Z before_first_spike H)).
Defined.

(** C10, as the code has it: with [u_reset < u_thres], the state a step
    leaves never satisfies [u >= u_thres], and it is strictly below the
    threshold whenever the integrated potential is a number. *)
Theorem potential_below_threshold (p : Params) (I_syn : float) (n_id : Z) (s : Sim) :
  (u_reset p <? u_thres p) = true ->
  geb (u (step p I_syn n_id s)) (u_thres p) = false
  /\ (is_nan (u (euler_forward p I_syn s)) = false ->
      (u (step p I_syn n_id s) <? u_thres p) = true).
Proof.
  intros H.
  destruct (spike_condition_once p I_syn n_id s) as [(_ & _ & _ & Hu & _)|(E & _ & _ & Hu & _)];
    rewrite Hu.
  - split; [apply ltb_not_geb|]; auto.
  - split; [exact E|]. intros N. apply not_geb_ltb; auto.
    apply (ltb_not_nan _ _ H).
Qed.

Lemma potential_below_threshold_reference :
  (u_reset reference <? u_thres reference) = true
  /\ geb (u (step reference (pA 50) 0%Z (start reference [] [])))
         (u_thres reference) = false
  /\ (is_nan (u (euler_forward reference (pA 50) (start reference [] []))) = false ->
      (u (step reference (pA 50) 0%Z (start reference [] [])) <? u_thres reference)
      = true).
Proof.
  assert (H : (u_reset reference <? u_thres reference) = true)
    by (vm_compute; reflexivity).
  exact (conj H (potential_below_threshold reference (pA 50) 0%Z
                   (start reference [] []) H)).
Defined.

(** C10, a run whose state is not below the threshold: with the reference
    parameters, where [u_reset < u_thres], and the current [-1e300] the
    potential is minus infinity after one step and NaN after two; no spike
    was recorded, and [u < u_thres] is false. *)
Lemma state_not_below_threshold :
  (u_reset reference <? u_thres reference) = true
  /\ t_spike after_two_steps = []
  /\ is_nan (u after_two_steps) = true
  /\ (u after_two_steps <? u_thres reference) = false.
Proof. vm_compute. repeat split; reflexivity. Qed.

(** ** Spike counts (Tasks 1, 3 and 4) *)

Lemma length_zero_nil {A : Type} (l : list A) : length l = O -> l = [].
Proof. destruct l; [reflexivity|discriminate]. Qed.

Lemma is_empty_length {A : Type} (l : list A) :
  is_empty l = Nat.eqb (length l) 0.
Proof. destruct l; reflexivity. Qed.

Lemma run_simulation_core p T I_syn n :
  option_map core (run_simulation p T I_syn n)
  = core_loop p T I_syn n (core_start p 0 0).
Proof. unfold run_simulation. apply core_loop_ok. Qed.

Lemma run_simulation_mono p T I_syn n n' s :
  (n <= n')%nat ->
  run_simulation p T I_syn n = Some s -> run_simulation p T I_syn n' = Some s.
Proof. apply time_loop_mono. Qed.

Lemma spikes_loop_ok p T I_syn :
  forall fuel c,
    spikes_loop (dt p) (R p) (tau_m p) (u_rest p) (u_reset p) (u_thres p)
      T I_syn fuel (c_t c) (c_u c) (c_t_spike c)
    = option_map c_t_spike (core_loop p T I_syn fuel c).
Proof.
  unfold core_loop.
  induction fuel as [|fuel IH]; intros c; simpl; destruct (c_t c <=? T);
    try reflexivity.
  rewrite <- IH. unfold core_step, du_dt.
  destruct (geb _ (u_thres p)); reflexivity.
Qed.

Lemma core_count_ok p T I_syn fuel :
  core_count p T I_syn fuel
  = option_map c_t_spike (core_loop p T I_syn fuel (core_start p 0 0)).
Proof. apply (spikes_loop_ok p T I_syn fuel (core_start p 0 0)). Qed.

(** A run returns with [k] spikes as soon as the count evaluated on the
    projection is [k]. *)
Lemma run_simulation_count p T I_syn k :
  core_count p T I_syn enough = Some k ->
  returns (run_simulation p T I_syn) (fun s => spike_count s = k).
Proof.
  intros H.
  apply (returns_by_core core _ (fun n => core_loop p T I_syn n (core_start p 0 0))
           _ (fun c => Nat.eqb (c_t_spike c) k) enough).
  - intros n. apply run_simulation_core.
  - intros n n' a. apply run_simulation_mono.
  - rewrite core_count_ok in H.
    destruct (core_loop p T I_syn enough (core_start p 0 0)); [|discriminate].
    simpl in H. injection H as ->. apply Nat.eqb_refl.
  - intros a E. apply Nat.eqb_eq in E. exact E.
Qed.

Lemma task3_count_core p T I_syn fs n :
  option_map core
    (while_loop fs (fun s => is_empty (t_spike s))
       (fun s => time_loop p T I_syn 0%Z n (start p (t_spike s) [])) (start p [] []))
  = while_loop fs (fun c => Nat.eqb (c_t_spike c) 0)
      (fun c => core_loop p T I_syn n (core_start p (c_t_spike c) 0))
      (core_start p 0 0).
Proof.
  apply (while_loop_abs core).
  - intros a. apply is_empty_length.
  - intros a. apply (core_loop_ok p T I_syn 0%Z n (start p (t_spike a) [])).
Qed.

(** C8: with the reference parameters, the current 250 pA and one second of
    simulated time a run produces exactly 33 spikes; this is also the count
    the loop of Task 3 prints for 250 pA. *)
Theorem reference_250pA_33_spikes :
  returns (run_simulation reference 1 (pA 250))
          (fun s => spike_count s = 33%nat)
  /\ returns (fun fuel => Task3.count reference 1 fuel fuel 250) (eq 33%nat).
Proof.
  split.
  - apply run_simulation_count. vm_compute. reflexivity.
  - exists enough. intros n Hn.
    pose proof (task3_count_core reference 1 (pA 250) enough enough) as H.
    match type of H with _ = ?rhs =>
      assert (E : option_map c_t_spike rhs = Some 33%nat) by (vm_compute; reflexivity)
    end.
    rewrite <- H in E. unfold Task3.count.
    match type of E with option_map _ (option_map _ ?w) = _ =>
      destruct w as [s|] eqn:W; [|discriminate] end.
    simpl in E. injection E as E.
    apply (while_loop_mono _ _
             (fun s => time_loop reference 1 (pA 250) 0%Z n (start reference (t_spike s) []))
             (fun s0 r => time_loop_mono _ _ _ _ _ _ _ r Hn) enough n _ _ Hn) in W.
    rewrite W. exists 33%nat. split; [|reflexivity]. simpl. unfold spike_count.
    unfold core in E. simpl in E. now rewrite E.
Qed.

(** ** The rheobase search (Task 2) *)

(** The search loop, entered at the [j]-th candidate with an empty
    [t_spike]: it stops after the run of the first candidate [k] that
    spikes, and by then [I_syn] is already the candidate after [k]. *)
Lemma rheobase_loop_exit p T start_I step_I n :
  forall fs j v0 v,
    Task2.I_syn v0 = candidate start_I step_I j ->
    t_spike (Task2.sim v0) = [] ->
    while_loop fs (fun v => is_empty (t_spike (Task2.sim v)))
      (Task2.body p T step_I n) v0 = Some v ->
    exists k, (j <= k)%nat
      /\ Task2.I_syn v = candidate start_I step_I (S k)
      /\ run_simulation p T (candidate start_I step_I k) n = Some (Task2.sim v)
      /\ t_spike (Task2.sim v) <> []
      /\ forall i, (j <= i < k)%nat ->
           exists s, run_simulation p T (candidate start_I step_I i) n = Some s
                     /\ t_spike s = [].
Proof.
  induction fs as [|fs IH]; intros j v0 v HI Ht; simpl; rewrite Ht; simpl;
    [discriminate|].
  unfold Task2.body at 1. rewrite Ht, HI.
  fold (run_simulation p T (candidate start_I step_I j) n).
  destruct (run_simulation p T _ n) as [s|] eqn:E; [|discriminate].
  destruct (t_spike s) as [|x l] eqn:Es.
  - intros H. apply (IH (S j)) in H; [|reflexivity|exact Es].
    destruct H as (k & Hk & H1 & H2 & H3 & H4).
    exists k. repeat split; auto; try lia.
    intros i Hi. destruct (Nat.eq_dec i j) as [->|]; [eauto|apply H4; lia].
  - destruct fs; simpl; rewrite Es; simpl; intros [= <-]; simpl;
      (exists j; repeat split; auto; try lia; rewrite Es; discriminate).
Qed.

(** X1: whenever the rheobase search returns, the value it reports is one
    step above the first candidate whose run spikes, and every candidate
    before that one gave no spike. *)
Theorem find_rheobase_reports_next p T start_I step_I fs n v :
  Task2.find_rheobase p T start_I step_I fs n = Some v ->
  exists k,
    Task2.I_syn v = candidate start_I step_I k + step_I
    /\ run_simulation p T (candidate start_I step_I k) n = Some (Task2.sim v)
    /\ t_spike (Task2.sim v) <> []
    /\ forall i, (i < k)%nat ->
         exists s, run_simulation p T (candidate start_I step_I i) n = Some s
                   /\ t_spike s = [].
Proof.
  intros H. apply (rheobase_loop_exit p T start_I step_I n fs 0) in H;
    [|reflexivity|reflexivity].
  destruct H as (k & _ & H1 & H2 & H3 & H4).
  exists k. repeat split; auto. intros i Hi. apply H4. lia.
Qed.

(** With a fuel that suffices for the runs, the search loop entered at the
    [j]-th candidate returns after the run of the first candidate that
    spikes. *)
Lemma rheobase_loop_returns p T start_I step_I n k s :
  (forall j, (j < k)%nat ->
     exists sj, run_simulation p T (candidate start_I step_I j) n = Some sj
                /\ t_spike sj = []) ->
  run_simulation p T (candidate start_I step_I k) n = Some s ->
  t_spike s <> [] ->
  forall d j v0 fs,
    (j + d = k)%nat -> (d < fs)%nat ->
    Task2.I_syn v0 = candidate start_I step_I j ->
    t_spike (Task2.sim v0) = [] ->
    while_loop fs (fun v => is_empty (t_spike (Task2.sim v)))
      (Task2.body p T step_I n) v0
    = Some {| Task2.I_syn := candidate start_I step_I (S k); Task2.sim := s |}.
Proof.
  intros Hsil Hk Hne.
  induction d as [|d IH]; intros j v0 fs Hj Hfs HI Ht;
    (destruct fs as [|fs]; [lia|]); simpl; rewrite Ht; simpl;
    unfold Task2.body at 1; rewrite Ht, HI;
    fold (run_simulation p T (candidate start_I step_I j) n).
  - replace j with k by lia. rewrite Hk.
    destruct fs; simpl; destruct (t_spike s); try contradiction; reflexivity.
  - destruct (Hsil j) as (sj & E & Es); [lia|]. rewrite E.
    apply (IH (S j)); [lia|lia|reflexivity|exact Es].
Qed.

(** A run returns for every fuel from [enough] on when its count was
    evaluated with [enough]. *)
Lemma run_simulation_at p T I_syn k n :
  core_count p T I_syn enough = Some k -> (enough <= n)%nat ->
  exists s, run_simulation p T I_syn n = Some s /\ spike_count s = k.
Proof.
  intros H Hn. rewrite core_count_ok, <- run_simulation_core in H.
  destruct (run_simulation p T I_syn enough) as [s|] eqn:E; [|discriminate].
  exists s. split; [now apply (run_simulation_mono p T I_syn enough n)|].
  simpl in H. now injection H.
Qed.

(** The first 108 candidates of Task 2, 50 pA to 157 pA, do not spike. *)
Lemma task2_silent_candidates :
  forallb (fun j => match core_count reference 1
                            (candidate (pA 50) (pA 1) j) enough with
                    | Some O => true
                    | _ => false
                    end) (seq 0 108) = true.
Proof. vm_cast_no_check (eq_refl true). Qed.

Lemma task2_silent j :
  (j < 108)%nat ->
  core_count reference 1 (candidate (pA 50) (pA 1) j) enough = Some O.
Proof.
  intros Hj. pose proof task2_silent_candidates as H.
  rewrite forallb_forall in H. specialize (H j).
  destruct (core_count reference 1 (candidate (pA 50) (pA 1) j) enough)
    as [[|k]|]; try reflexivity;
    (assert (F : false = true) by (apply H, in_seq; lia); discriminate).
Qed.

Lemma task2_first_spiking :
  core_count reference 1 (candidate (pA 50) (pA 1) 108) enough = Some 4%nat.
Proof. vm_compute. reflexivity. Qed.

(** The cell of Task 2: it returns with [I_syn] at the 109th step above
    50 pA and the four spikes of the run of the 108th in [t_spike]. *)
Lemma task2_returns :
  returns Task2.task2
    (fun v => Task2.I_syn v = candidate (pA 50) (pA 1) 109
              /\ spike_count (Task2.sim v) = 4%nat).
Proof.
  exists (Nat.max enough 109). intros n Hn.
  destruct (run_simulation_at _ _ _ _ n task2_first_spiking) as (s & Es & Hs); [lia|].
  exists {| Task2.I_syn := candidate (pA 50) (pA 1) 109; Task2.sim := s |}.
  split; [|split; [reflexivity|exact Hs]].
  unfold Task2.task2, Task2.find_rheobase.
  apply (rheobase_loop_returns reference 1 (pA 50) (pA 1) n 108 s) with (d := 108%nat) (j := O);
    try reflexivity; try lia; try exact Es.
  - intros j Hj.
    destruct (run_simulation_at _ _ _ _ n (task2_silent j Hj)) as (sj & Ej & Hj'); [lia|].
    exists sj. split; [exact Ej|]. now apply length_zero_nil.
  - unfold spike_count in Hs. intros F. rewrite F in Hs. discriminate.
Qed.

(** C2, on the cell as written (from 50 pA in steps of 1 pA): the first
    candidate whose run spikes is the 108th step above 50 pA, 158 pA, with
    four spikes; every candidate before it gives none; the search returns,
    and the value it reports is the next candidate, 159 pA. *)
Theorem task2_reports_candidate_after_rheobase :
  let cand := candidate (pA 50) (pA 1) in
  returns Task2.task2
    (fun v => Task2.I_syn v = cand 109%nat /\ spike_count (Task2.sim v) = 4%nat)
  /\ returns (run_simulation reference 1 (cand 108%nat))
             (fun s => spike_count s = 4%nat)
  /\ (forall j, (j < 108)%nat ->
        returns (run_simulation reference 1 (cand j)) (fun s => spike_count s = 0%nat))
  /\ (cand 108%nat <? cand 109%nat) = true
  /\ cand 109%nat <> cand 108%nat.
Proof.
  cbv zeta. split; [|split; [|split; [|split]]].
  - exact task2_returns.
  - apply run_simulation_count. exact task2_first_spiking.
  - intros j Hj. apply run_simulation_count. now apply task2_silent.
  - vm_compute. reflexivity.
  - apply ne_by_eqb; vm_compute; reflexivity.
Qed.

(** ** The f-I sweep (Task 4) *)

Lemma in_range lo hi i : (lo <= i < hi)%Z -> In i (Task4.range lo hi).
Proof.
  intros H. unfold Task4.range. apply in_map_iff.
  exists (Z.to_nat (i - lo)). split; [lia|]. apply in_seq. lia.
Qed.

(** ** Runs as rounds of the potential *)

Section Rounds.

Variables dt0 R0 tau0 rest reset thres T I_syn : float.

Lemma ticks_spikes :
  forall fuel t0 a N,
    ticks dt0 T fuel t0 a = Some N ->
    exists k, N = (a + k)%nat
      /\ forall u0 n,
           spikes_loop dt0 R0 tau0 rest reset thres T I_syn fuel t0 u0 n
           = Some (n + spikes_in dt0 R0 tau0 rest reset thres I_syn k u0)%nat.
Proof.
  induction fuel as [|fuel IH]; intros t0 a N; simpl; destruct (t0 <=? T);
    try discriminate.
  - intros [= <-]. exists O. split; [lia|]. intros u0 n. now rewrite Nat.add_0_r.
  - intros H. destruct (IH _ _ _ H) as (k & -> & Hk).
    exists (S k). split; [lia|]. intros u0 n. simpl.
    destruct (geb _ thres); rewrite Hk; f_equal; lia.
  - intros [= <-]. exists O. split; [lia|]. intros u0 n. now rewrite Nat.add_0_r.
Qed.

Lemma first_spike_some :
  forall k u0 n P,
    first_spike dt0 R0 tau0 rest thres I_syn k u0 n = Some P ->
    exists j, P = (n + S j)%nat
      /\ forall m, spikes_in dt0 R0 tau0 rest reset thres I_syn m u0
                   = if (m <=? j)%nat then O
                     else S (spikes_in dt0 R0 tau0 rest reset thres I_syn
                               (m - S j) reset).
Proof.
  induction k as [|k IH]; intros u0 n P; simpl; [discriminate|].
  destruct (geb _ thres) eqn:G.
  - intros [= <-]. exists O. split; [lia|].
    intros [|m]; simpl; [reflexivity|]. rewrite G. now rewrite Nat.sub_0_r.
  - intros H. destruct (IH _ _ _ H) as (j & -> & Hj).
    exists (S j). split; [lia|].
    intros [|m]; simpl; [reflexivity|]. rewrite G. apply Hj.
Qed.

Lemma first_spike_none :
  forall k u0 n,
    first_spike dt0 R0 tau0 rest thres I_syn k u0 n = None ->
    forall m, (m <= k)%nat ->
      spikes_in dt0 R0 tau0 rest reset thres I_syn m u0 = O.
Proof.
  induction k as [|k IH]; intros u0 n H m Hm.
  - now replace m with O by lia.
  - simpl in H. destruct m as [|m]; [reflexivity|]. simpl.
    destruct (geb _ thres); [discriminate|].
    apply (IH _ _ H). lia.
Qed.

(** After a spike the run is where it started. *)
Lemma spikes_in_periodic j :
  reset = rest ->
  (forall m, spikes_in dt0 R0 tau0 rest reset thres I_syn m rest
             = if (m <=? j)%nat then O
               else S (spikes_in dt0 R0 tau0 rest reset thres I_syn (m - S j) reset)) ->
  forall m, spikes_in dt0 R0 tau0 rest reset thres I_syn m rest = (m / S j)%nat.
Proof.
  intros E H m. induction m as [m IH] using lt_wf_ind.
  rewrite H. destruct (m <=? j)%nat eqn:L.
  - apply Nat.leb_le in L. symmetry. apply Nat.div_small. lia.
  - apply Nat.leb_gt in L.
    replace (spikes_in dt0 R0 tau0 rest reset thres I_syn (m - S j) reset)
      with (spikes_in dt0 R0 tau0 rest reset thres I_syn (m - S j) rest)
      by (now rewrite E).
    rewrite (IH (m - S j)%nat) by lia.
    replace m with ((m - S j) + 1 * S j)%nat at 2 by lia.
    rewrite Nat.div_add by lia. lia.
Qed.

End Rounds.

(** With [u_reset = u_rest], the count of a run is the number of whole
    periods in its rounds. *)
Lemma core_count_by_period p T I_syn N :
  u_reset p = u_rest p ->
  ticks (dt p) T enough 0 0 = Some N ->
  core_count p T I_syn enough = Some (period_count p N I_syn).
Proof.
  intros E H. unfold core_count, period_count.
  destruct (ticks_spikes (dt p) (R p) (tau_m p) (u_rest p) (u_reset p) (u_thres p)
              T I_syn _ _ _ _ H) as (k & -> & Hk).
  rewrite Hk. simpl. f_equal.
  destruct (first_spike _ _ _ _ _ _ k (u_rest p) 0) as [P|] eqn:F.
  - destruct (first_spike_some _ _ _ _ (u_reset p) _ _ _ _ _ _ F) as (j & -> & Hj).
    apply (spikes_in_periodic _ _ _ _ _ _ _ j E Hj).
  - apply (first_spike_none _ _ _ _ (u_reset p) _ _ _ _ _ F). lia.
Qed.

Lemma period_count_Z_ok p N I_syn :
  period_count_Z p N (Z.of_nat N) I_syn = Z.of_nat (period_count p N I_syn).
Proof.
  unfold period_count_Z, period_count.
  destruct (first_spike _ _ _ _ _ _ _ _ _); [|reflexivity].
  now rewrite Nat2Z.inj_div.
Qed.

Lemma reference_rounds : exists N, ticks (dt reference) 1 enough 0 0 = Some N.
Proof.
  assert (H : match ticks (dt reference) 1 enough 0 0 with
              | Some _ => true
              | None => false
              end = true) by (vm_compute; reflexivity).
  destruct (ticks (dt reference) 1 enough 0 0) as [N|]; [eauto|discriminate].
Qed.

Lemma sweep_table_monotone : monotone_table sweep_table = true.
Proof. vm_cast_no_check (eq_refl true). Qed.




(** ** The stimulus-duration search (Task 5) *)

(** A loop that returned left its condition after some number of rounds, and
    not before. *)
Lemma while_loop_first_exit {St : Type} (cond : St -> bool)
    (body : St -> option St) :
  forall fs s r, while_loop fs cond body s = Some r ->
    exists k, iterate body k s = Some r /\ cond r = false
      /\ forall j, (j < k)%nat ->
           exists sj, iterate body j s = Some sj /\ cond sj = true.
Proof.
  induction fs as [|fs IH]; intros s r; simpl; destruct (cond s) eqn:C;
    try discriminate.
  - intros [= <-]. exists O. repeat split; auto. intros j Hj; lia.
  - destruct (body s) as [s1|] eqn:B; [|discriminate]. intros H.
    destruct (IH _ _ H) as (k & Hk & Hc & Hj).
    exists (S k). simpl. rewrite B. repeat split; auto.
    intros [|j] Hlt; [exists s; auto|].
    simpl. rewrite B. apply Hj. lia.
  - intros [= <-]. exists O. repeat split; auto. intros j Hj; lia.
Qed.

(** What one step of Task 5 does to the variables the search reads. *)
Lemma task5_step_fields p index n_id v :
  let I := if geb (t (Task5.sim v)) (Task5.t_stimuli v) then 0 else Task5.I_syn v in
  let u_new := u (euler_forward p I (Task5.sim v)) in
  let spiked := geb u_new (u_thres p) in
  let v' := Task5.step p index n_id v in
  t_spike (Task5.sim v')
    = (if spiked then t_spike (Task5.sim v) ++ [t (Task5.sim v)]
       else t_spike (Task5.sim v))
  /\ n_spike (Task5.sim v')
    = (if spiked then n_spike (Task5.sim v) ++ [n_id] else n_spike (Task5.sim v))
  /\ Task5.t_st v'
    = (if spiked && (length (Task5.t_st v) <? index + 1)%nat
       then Task5.t_st v ++ [t (Task5.sim v)] else Task5.t_st v)
  /\ Task5.t_stimuli v' = Task5.t_stimuli v
  /\ Task5.I_syn v' = I
  /\ u (Task5.sim v') = (if spiked then u_reset p else u_new).
Proof.
  destruct v as [I ts st [t0 u0 ti ui tsp nsp]].
  cbv zeta. unfold Task5.step, Task5.spike_condition5, Task5.cut_stimulus,
    Task5.with_sim, spike_condition; simpl.
  destruct (geb t0 ts); simpl;
    destruct (geb _ (u_thres p)); simpl; repeat split; reflexivity.
Qed.

Lemma core5_step_ok p index n_id v :
  Core5.core (Task5.step p index n_id v) = Core5.step p index (Core5.core v).
Proof.
  destruct v as [I ts st [t0 u0 ti ui tsp nsp]].
  unfold Task5.step, Core5.step, Task5.spike_condition5, Task5.cut_stimulus,
    Task5.with_sim, spike_condition, core_step, Core5.core, core; simpl.
  destruct (geb t0 ts); simpl;
    destruct (geb _ (u_thres p)); simpl; rewrite ?length_app; simpl;
    repeat f_equal; lia.
Qed.

Lemma core5_body_ok p T d index n v :
  option_map Core5.core (Task5.body p T d index n v)
  = Core5.body p T d index n (Core5.core v).
Proof.
  unfold Task5.body, Core5.body.
  change (Core5.run_start p d (Core5.core v))
    with (Core5.core (Task5.run_start p d v)).
  apply (while_loop_abs Core5.core); [reflexivity|].
  intros a. simpl. now rewrite core5_step_ok.
Qed.

Lemma core5_ok p T I d index t_st0 fs n :
  option_map Core5.core (Task5.find_min_stimulus_duration p T I d index t_st0 fs n)
  = Core5.find_min_stimulus_duration p T I d index t_st0 fs n.
Proof.
  unfold Task5.find_min_stimulus_duration, Core5.find_min_stimulus_duration.
  apply (while_loop_abs Core5.core).
  - intros a. apply is_empty_length.
  - intros a. apply core5_body_ok.
Qed.

Lemma task5_body_mono p T d index n n' v r :
  (n <= n')%nat ->
  Task5.body p T d index n v = Some r -> Task5.body p T d index n' v = Some r.
Proof. unfold Task5.body. apply while_loop_mono. auto. Qed.

Lemma find_min_stimulus_duration_mono p T I d index t_st0 n n' v :
  (n <= n')%nat ->
  Task5.find_min_stimulus_duration p T I d index t_st0 n n = Some v ->
  Task5.find_min_stimulus_duration p T I d index t_st0 n' n' = Some v.
Proof.
  intros Hle. unfold Task5.find_min_stimulus_duration.
  apply while_loop_mono; [|exact Hle].
  intros s r. now apply task5_body_mono.
Qed.

Lemma candidate_shift x0 d k : candidate (x0 + d) d k = candidate x0 d (S k).
Proof. induction k as [|k IH]; simpl; [reflexivity|]. now rewrite IH. Qed.

Section DurationSearch.

Variables (p : Params) (T d : float) (index : nat) (t_st0 : list float).
Hypothesis t_st0_length : length t_st0 = index.

(** During a run either nothing has spiked since the search began, or the
    first spike time of the run is what was appended to [t_st]. *)
Lemma task5_step_inv n_id v :
  nothing_reported t_st0 v \/ first_spike_reported t_st0 v ->
  nothing_reported t_st0 (Task5.step p index n_id v)
  \/ first_spike_reported t_st0 (Task5.step p index n_id v).
Proof.
  destruct (task5_step_fields p index n_id v) as (Ht & Hn & Hst & _).
  cbv zeta in *. unfold nothing_reported, first_spike_reported.
  rewrite Ht, Hn, Hst. destruct (geb _ (u_thres p)); [|tauto].
  intros [(En & Et & Es)|(x & rest & Et & Es & En)]; right.
  - rewrite En, Et, Es, t_st0_length.
    replace (index <? index + 1)%nat with true by (symmetry; apply Nat.ltb_lt; lia).
    exists (t (Task5.sim v)), []. repeat split; discriminate.
  - rewrite Et, Es, length_app. simpl. rewrite t_st0_length.
    replace (index + 1 <? index + 1)%nat with false
      by (symmetry; apply Nat.ltb_ge; lia).
    exists x, (rest ++ [t (Task5.sim v)]). repeat split.
    destruct (n_spike (Task5.sim v)); discriminate.
Qed.

Lemma task5_body_inv n v v' :
  n_spike (Task5.sim v) = [] -> Task5.t_st v = t_st0 ->
  Task5.body p T d index n v = Some v' ->
  (nothing_reported t_st0 v' \/ first_spike_reported t_st0 v')
  /\ Task5.t_stimuli v' = Task5.t_stimuli v + d.
Proof.
  intros Hn Hs H. unfold Task5.body in H.
  apply (while_loop_inv _ _
           (fun w => (nothing_reported t_st0 w \/ first_spike_reported t_st0 w)
                     /\ Task5.t_stimuli w = Task5.t_stimuli v + d)) in H.
  - tauto.
  - intros s s' [Hi Hc] _ [= <-]. split; [now apply task5_step_inv|].
    destruct (task5_step_fields p index 0%Z s) as (_ & _ & _ & E & _).
    cbv zeta in E. congruence.
  - split; [left|reflexivity]. unfold nothing_reported, Task5.run_start. simpl. auto.
Qed.

Lemma task5_iterate_t_stimuli n :
  forall k v v', iterate (Task5.body p T d index n) k v = Some v' ->
    (forall j, (j < k)%nat ->
       exists vj, iterate (Task5.body p T d index n) j v = Some vj
                  /\ is_empty (n_spike (Task5.sim vj)) = true) ->
    Task5.t_st v = t_st0 ->
    Task5.t_stimuli v' = candidate (Task5.t_stimuli v) d k.
Proof.
  induction k as [|k IH]; intros v v'; simpl.
  - intros [= <-]; reflexivity.
  - destruct (Task5.body p T d index n v) as [v1|] eqn:B; [|discriminate].
    intros H Hj Hs.
    destruct (Hj O) as (v0 & [= <-] & E0); [lia|].
    destruct (n_spike (Task5.sim v)) eqn:En; [|discriminate].
    destruct (task5_body_inv n v v1 En Hs B) as (Hi & Hc).
    destruct k as [|k].
    + simpl in H. injection H as <-. exact Hc.
    + destruct (Hj 1%nat) as (v1' & E1 & C1); [lia|].
      simpl in E1. rewrite B in E1. injection E1 as <-.
      rewrite <- candidate_shift, <- Hc. apply IH; auto.
      * intros j Hlt. destruct (Hj (S j)) as (vj & Ej & Cj); [lia|].
        simpl in Ej. rewrite B in Ej. eauto.
      * destruct Hi as [(_ & _ & E)|(x & rest & _ & _ & E)]; [exact E|].
        destruct (n_spike (Task5.sim v1)); [congruence|discriminate].
Qed.

(** C3, as the code has it: the search raises the cutoff by the fixed
    increment, starting from 0, and stops after the first run that leaves
    [n_spike] non-empty; the value it appends to [t_st] is the time of the
    first spike of that run. *)
Theorem duration_search_reports_first_spike (I : float) (fs n : nat) (v : Task5.Vars) :
  Task5.find_min_stimulus_duration p T I d index t_st0 fs n = Some v ->
  exists k,
    iterate (Task5.body p T d index n) (S k) (Task5.init p I t_st0) = Some v
    /\ (forall j, (j <= k)%nat ->
          exists vj, iterate (Task5.body p T d index n) j (Task5.init p I t_st0)
                     = Some vj
                     /\ n_spike (Task5.sim vj) = [])
    /\ Task5.t_stimuli v = candidate 0 d (S k)
    /\ exists x rest,
         t_spike (Task5.sim v) = x :: rest /\ Task5.t_st v = t_st0 ++ [x].
Proof.
  intros H. unfold Task5.find_min_stimulus_duration in H.
  pose proof (while_loop_first_exit _ _ _ _ _ H) as (k0 & Hk & Hc & Hj).
  apply (while_loop_inv _ _
           (fun w => nothing_reported t_st0 w \/ first_spike_reported t_st0 w)) in H.
  - destruct H as [[(En & _)|(x & rest & Et & Es & _)] _];
      [rewrite En in Hc; discriminate|].
    destruct k0 as [|k]; [simpl in Hk; injection Hk as <-; discriminate|].
    exists k. split; [exact Hk|]. split; [|split; [|eauto]].
    + intros j Hle. destruct (Hj j) as (vj & Ej & Cj); [lia|].
      exists vj. split; [exact Ej|].
      destruct (n_spike (Task5.sim vj)); [reflexivity|discriminate].
    + apply (task5_iterate_t_stimuli n (S k) (Task5.init p I t_st0) v Hk Hj).
      reflexivity.
  - intros s s' Hi C B.
    assert (En : n_spike (Task5.sim s) = [])
      by (destruct (n_spike (Task5.sim s)); [reflexivity|discriminate]).
    destruct Hi as [(_ & _ & Es)|(x & rest & _ & _ & Ne)]; [|congruence].
    apply (task5_body_inv n s s' En Es B).
  - left. repeat split.
Qed.

End DurationSearch.

(** The search of Task 5 for 400 pA, evaluated. *)
Lemma duration_search_400pA_core :
  match Core5.find_min_stimulus_duration reference 0.15 (pA 400) 0.1 0 []
          enough enough with
  | Some b =>
      match Core5.t_st b with
      | [x] => Leibniz.eqb (Core5.t_stimuli b) 0.1
               && negb (Leibniz.eqb x (Core5.t_stimuli b))
               && (0.015 <? x) && (x <? 0.016)
               && Nat.eqb (c_n_spike (Core5.run b)) 6
      | _ => false
      end
  | None => false
  end = true.
Proof. vm_compute. reflexivity. Qed.

Lemma duration_search_400pA_returns :
  returns (fun fuel => Task5.find_min_stimulus_duration reference 0.15 (pA 400)
                         0.1 0 [] fuel fuel)
    (fun v => exists x,
       Task5.t_st v = [x] /\ Task5.t_stimuli v = 0.1
       /\ x <> Task5.t_stimuli v
       /\ (0.015 <? x) = true /\ (x <? 0.016) = true
       /\ length (n_spike (Task5.sim v)) = 6%nat).
Proof.
  apply (returns_by_core Core5.core _
           (fun n => Core5.find_min_stimulus_duration reference 0.15 (pA 400)
                       0.1 0 [] n n) _
           (fun b => match Core5.t_st b with
                     | [x] => Leibniz.eqb (Core5.t_stimuli b) 0.1
                              && negb (Leibniz.eqb x (Core5.t_stimuli b))
                              && (0.015 <? x) && (x <? 0.016)
                              && Nat.eqb (c_n_spike (Core5.run b)) 6
                     | _ => false
                     end) enough).
  - intros n. apply core5_ok.
  - intros n n' a. apply find_min_stimulus_duration_mono.
  - exact duration_search_400pA_core.
  - intros a. unfold Core5.core; simpl.
    destruct (Task5.t_st a) as [|x [|y l]]; try discriminate.
    intros E. repeat (apply andb_prop in E; destruct E as [E ?]).
    apply Leibniz.eqb_spec in E. apply Nat.eqb_eq in H.
    exists x. repeat split; auto.
    intros F. apply Leibniz.eqb_spec in F. rewrite F in H2. discriminate.
Qed.

(** C3, the search for 400 pA with the reference parameters: it stops at the
    first cutoff it tries, 0.1 s, whose run has six spikes, and the value it
    reports is the time of the first of them, between 15 ms and 16 ms, not
    the cutoff. *)
Lemma duration_search_400pA_reports_spike_time :
  returns (fun fuel => Task5.find_min_stimulus_duration reference 0.15 (pA 400)
                         0.1 0 [] fuel fuel)
    (fun v => Task5.t_stimuli v = 0.1
              /\ length (n_spike (Task5.sim v)) = 6%nat
              /\ Task5.t_st v <> [Task5.t_stimuli v]
              /\ exists x, Task5.t_st v = [x]
                           /\ (0.015 <? x) = true /\ (x <? 0.016) = true).
Proof.
  destruct duration_search_400pA_returns as [n H]. exists n. intros k Hk.
  destruct (H k Hk) as (v & E & x & Hs & Hc & Hx & Hlo & Hhi & Hn).
  exists v. split; [exact E|]. repeat split; auto.
  - rewrite Hs. intros [= F]. contradiction.
  - exists x. auto.
Qed.

(** The search for 400 pA returns, and [duration_search_reports_first_spike]
    applies to what it returns. *)
Lemma duration_search_reports_first_spike_400pA :
  exists fuel v,
    length (@nil float) = O
    /\ Task5.find_min_stimulus_duration reference 0.15 (pA 400) 0.1 0 [] fuel fuel
       = Some v
    /\ exists k,
         iterate (Task5.body reference 0.15 0.1 0 fuel) (S k)
           (Task5.init reference (pA 400) []) = Some v
         /\ (forall j, (j <= k)%nat ->
               exists vj, iterate (Task5.body reference 0.15 0.1 0 fuel) j
                            (Task5.init reference (pA 400) []) = Some vj
                          /\ n_spike (Task5.sim vj) = [])
         /\ Task5.t_stimuli v = candidate 0 0.1 (S k)
         /\ exists x rest,
              t_spike (Task5.sim v) = x :: rest /\ Task5.t_st v = [] ++ [x].
Proof.
  destruct duration_search_400pA_returns as [n H].
  destruct (H n (le_n n)) as (v & E & _).
  exists n, v. split; [reflexivity|]. split; [exact E|].
  exact (duration_search_reports_first_spike reference 0.15 0.1 0 [] eq_refl
           (pA 400) n n v E).
Defined.

(** ** The stimulus of Task 5 across runs *)

(** X2: inside one step of Task 5 the current that is integrated is the
    bounded profile of the value [I_syn] has at that moment. *)
Lemma task5_step_current (v : Task5.Vars) :
  is_nan (t (Task5.sim v)) = false -> is_nan (Task5.t_stimuli v) = false ->
  Task5.I_syn (Task5.cut_stimulus v)
  = Task5.bounded (Task5.I_syn v) (Task5.t_stimuli v) (t (Task5.sim v)).
Proof.
  intros Nt Ns. unfold Task5.cut_stimulus, Task5.bounded.
  destruct (geb (t (Task5.sim v)) (Task5.t_stimuli v)) eqn:G; simpl.
  - destruct (t (Task5.sim v) <? Task5.t_stimuli v) eqn:L; [|reflexivity].
    apply ltb_not_geb in L. congruence.
  - now rewrite (not_geb_ltb _ _ Nt Ns G).
Qed.

(** The first run of the search for 160 pA, evaluated: no spike, and the
    amplitude is gone. *)
Lemma first_run_160pA_core :
  match Core5.body reference 0.15 0.1 0 enough (Core5.init reference (pA 160) []) with
  | Some b => Leibniz.eqb (Core5.I_syn b) 0
              && Nat.eqb (c_n_spike (Core5.run b)) 0
              && Nat.eqb (length (Core5.t_st b)) 0
              && Leibniz.eqb (Core5.t_stimuli b + 0.1) 0.2
  | None => false
  end = true.
Proof. vm_compute. reflexivity. Qed.

Lemma first_run_160pA :
  returns (fun fuel => Task5.body reference 0.15 0.1 0 fuel
                         (Task5.init reference (pA 160) []))
    (fun v => Task5.I_syn v = 0 /\ n_spike (Task5.sim v) = []
              /\ Task5.t_st v = [] /\ Task5.t_stimuli v + 0.1 = 0.2).
Proof.
  apply (returns_by_core Core5.core _
           (fun n => Core5.body reference 0.15 0.1 0 n
                       (Core5.init reference (pA 160) [])) _
           (fun b => Leibniz.eqb (Core5.I_syn b) 0
                     && Nat.eqb (c_n_spike (Core5.run b)) 0
                     && Nat.eqb (length (Core5.t_st b)) 0
                     && Leibniz.eqb (Core5.t_stimuli b + 0.1) 0.2) enough).
  - intros n. apply (core5_body_ok reference 0.15 0.1 0 n (Task5.init reference (pA 160) [])).
  - intros n n' a. apply task5_body_mono.
  - exact first_run_160pA_core.
  - intros a E. unfold Core5.core in E; simpl in E.
    repeat (apply andb_prop in E; destruct E as [E ?]).
    apply Leibniz.eqb_spec in E, H. apply Nat.eqb_eq in H0, H1.
    repeat split; auto using length_zero_nil.
Qed.

(** C4, the search for 160 pA: the first run (cutoff 0.1 s) ends without a
    spike and with [I_syn] overwritten by 0; the second run (cutoff 0.2 s)
    therefore integrates the current 0 at its first step, at [t = 0], where
    the bounded profile of 160 pA is 160 pA. *)
Theorem amplitude_lost_after_first_run :
  returns (fun fuel => Task5.body reference 0.15 0.1 0 fuel
                         (Task5.init reference (pA 160) []))
    (fun v1 =>
       let v2 := Task5.run_start reference 0.1 v1 in
       n_spike (Task5.sim v1) = []
       /\ t (Task5.sim v2) = 0 /\ Task5.t_stimuli v2 = 0.2
       /\ Task5.I_syn (Task5.cut_stimulus v2) = 0
       /\ Task5.bounded (pA 160) (Task5.t_stimuli v2) (t (Task5.sim v2)) = pA 160)
  /\ pA 160 <> 0.
Proof.
  split; [|apply ne_by_eqb; vm_compute; reflexivity].
  destruct first_run_160pA as [n H]. exists n. intros k Hk.
  destruct (H k Hk) as (v1 & E & HI & Hn & _ & Hc).
  exists v1. split; [exact E|]. cbv zeta.
  unfold Task5.run_start, Task5.cut_stimulus. simpl. rewrite Hc, HI.
  repeat split; auto.
Qed.

(** ** Searches that do not end *)

Lemma silent_50pA :
  returns (run_simulation reference 1 (pA 50)) (fun s => spike_count s = O).
Proof. apply run_simulation_count. vm_compute. reflexivity. Qed.

Lemma rheobase_search_step_zero_diverges :
  diverges (fun fuel => Task2.find_rheobase reference 1 (pA 50) 0 fuel fuel).
Proof.
  intros n. unfold Task2.find_rheobase.
  apply (while_loop_diverges _ _
           (fun v => Task2.I_syn v = pA 50 /\ t_spike (Task2.sim v) = [])).
  - intros v [_ E]. now rewrite E.
  - intros v v' [HI Ht]. unfold Task2.body. rewrite HI, Ht.
    fold (run_simulation reference 1 (pA 50) n).
    destruct (run_simulation reference 1 (pA 50) n) as [s|] eqn:E; [|discriminate].
    intros [= <-]. simpl. split; [vm_compute; reflexivity|].
    apply length_zero_nil.
    apply (returns_unique _ _ n s (run_simulation_mono reference 1 (pA 50))
             silent_50pA E).
  - split; reflexivity.
Qed.

Lemma rest_is_fixed (s : Sim) :
  u s = u_rest reference ->
  u (euler_forward reference 0 s) = u_rest reference.
Proof.
  intros H. unfold euler_forward. cbn [u]. rewrite H. vm_compute. reflexivity.
Qed.

Lemma rest_below_threshold : geb (u_rest reference) (u_thres reference) = false.
Proof. vm_compute. reflexivity. Qed.

(** A run of Task 5 that starts with [I_syn = 0] stays at rest. *)
Lemma task5_run_without_current T d index n v v' :
  Task5.I_syn v = 0 -> n_spike (Task5.sim v) = [] -> Task5.t_st v = [] ->
  Task5.body reference T d index n v = Some v' ->
  Task5.I_syn v' = 0 /\ n_spike (Task5.sim v') = [] /\ Task5.t_st v' = [].
Proof.
  intros HI Hn Hs H. unfold Task5.body in H.
  apply (while_loop_inv _ _
           (fun w => Task5.I_syn w = 0 /\ u (Task5.sim w) = u_rest reference
                     /\ n_spike (Task5.sim w) = [] /\ Task5.t_st w = [])) in H.
  - tauto.
  - intros s s' (SI & Su & Sn & Ss) _ [= <-].
    destruct (task5_step_fields reference index 0%Z s) as (_ & En & Est & _ & EI & Eu).
    cbv zeta in *.
    assert (I0 : (if geb (t (Task5.sim s)) (Task5.t_stimuli s) then 0
                  else Task5.I_syn s) = 0)
      by (destruct (geb (t (Task5.sim s)) (Task5.t_stimuli s)); [reflexivity|exact SI]).
    rewrite I0 in *. rewrite (rest_is_fixed _ Su) in *.
    rewrite rest_below_threshold in *. cbn [andb] in Est.
    rewrite EI, Eu, En, Est. auto.
  - unfold Task5.run_start. simpl. auto.
Qed.

Lemma duration_search_160pA_diverges :
  diverges (fun fuel => Task5.find_min_stimulus_duration reference 0.15 (pA 160)
                          0.1 0 [] fuel fuel).
Proof.
  intros n. unfold Task5.find_min_stimulus_duration.
  apply (while_loop_diverges _ _
           (fun v => n_spike (Task5.sim v) = [] /\ Task5.t_st v = []
                     /\ (Task5.run_start reference 0.1 v
                         = Task5.run_start reference 0.1 (Task5.init reference (pA 160) [])
                         \/ Task5.I_syn v = 0))).
  - intros v (E & _). now rewrite E.
  - intros v v' (Hn & Hs & [Hr|HI]) B.
    + unfold Task5.body in B. rewrite Hr in B.
      fold (Task5.body reference 0.15 0.1 0 n (Task5.init reference (pA 160) [])) in B.
      pose proof (returns_unique _ _ n v'
                    (fun a b c => task5_body_mono reference 0.15 0.1 0 a b _ c)
                    first_run_160pA B) as (HI & Hn' & Hs' & _).
      auto.
    + destruct (task5_run_without_current 0.15 0.1 0 n v v' HI Hn Hs B) as (? & ? & ?).
      auto.
  - repeat split. left. reflexivity.
Qed.

(** C5, two searches that never return: the rheobase search from 50 pA with
    the step 0, and the duration search of the script for 160 pA. *)
Lemma searches_without_end :
  diverges (fun fuel => Task2.find_rheobase reference 1 (pA 50) 0 fuel fuel)
  /\ diverges (fun fuel => Task5.find_min_stimulus_duration reference 0.15 (pA 160)
                             0.1 0 [] fuel fuel).
Proof.
  split; [exact rheobase_search_step_zero_diverges|exact duration_search_160pA_diverges].
Qed.

(** ** When a search returns *)

Lemma while_loop_exit_at {St : Type} (cond : St -> bool) (body : St -> option St) :
  forall k s r,
    iterate body k s = Some r -> cond r = false ->
    (forall j, (j < k)%nat -> exists sj, iterate body j s = Some sj /\ cond sj = true) ->
    while_loop k cond body s = Some r.
Proof.
  induction k as [|k IH]; intros s r; simpl.
  - intros [= <-] C _. now rewrite C.
  - destruct (body s) as [s1|] eqn:B; [|discriminate]. intros H C Hj.
    destruct (Hj O) as (s0 & [= <-] & C0); [lia|]. rewrite C0.
    apply IH; auto. intros j Hlt.
    destruct (Hj (S j)) as (sj & Ej & Cj); [lia|].
    simpl in Ej. rewrite B in Ej. eauto.
Qed.

(** A loop [while l == []] returns exactly the state of the first round
    that leaves [l] non-empty. *)
Lemma search_loop_returns_iff {St A : Type} (l : St -> list A)
    (body : St -> option St) (s r : St) :
  (exists fs, while_loop fs (fun v => is_empty (l v)) body s = Some r)
  <-> (exists k, iterate body k s = Some r /\ l r <> []
         /\ forall j, (j < k)%nat ->
              exists sj, iterate body j s = Some sj /\ l sj = []).
Proof.
  split.
  - intros [fs H]. apply while_loop_first_exit in H.
    destruct H as (k & Hk & Hc & Hj). exists k. repeat split; auto.
    + intros E. rewrite E in Hc. discriminate.
    + intros j Hlt. destruct (Hj j Hlt) as (sj & Ej & Cj).
      exists sj. split; [exact Ej|]. now destruct (l sj).
  - intros (k & Hk & Hc & Hj). exists k.
    apply while_loop_exit_at; auto.
    + destruct (l r); [congruence|reflexivity].
    + intros j Hlt. destruct (Hj j Hlt) as (sj & Ej & Cj).
      exists sj. split; [exact Ej|]. now rewrite Cj.
Qed.

(** C5, as the code has it: neither search has an iteration ceiling or an
    outcome other than a value.  A search returns exactly when some run
    leaves the spike list non-empty, and what it returns is the state after
    the first such run; if no run spikes it does not return. *)
Theorem search_returns_iff_a_run_spikes (p : Params) (T a b : float)
    (index : nat) (t_st0 : list float) (n : nat) :
  (forall v,
     (exists fs, Task2.find_rheobase p T a b fs n = Some v)
     <-> (exists k,
            iterate (Task2.body p T b n) k (Task2.init p a) = Some v
            /\ t_spike (Task2.sim v) <> []
            /\ forall j, (j < k)%nat ->
                 exists vj, iterate (Task2.body p T b n) j (Task2.init p a) = Some vj
                            /\ t_spike (Task2.sim vj) = []))
  /\ (forall v,
        (exists fs, Task5.find_min_stimulus_duration p T a b index t_st0 fs n = Some v)
        <-> (exists k,
               iterate (Task5.body p T b index n) k (Task5.init p a t_st0) = Some v
               /\ n_spike (Task5.sim v) <> []
               /\ forall j, (j < k)%nat ->
                    exists vj, iterate (Task5.body p T b index n) j
                                 (Task5.init p a t_st0) = Some vj
                               /\ n_spike (Task5.sim vj) = [])).
Proof.
  split; intros v.
  - apply (search_loop_returns_iff (fun w => t_spike (Task2.sim w))).
  - apply (search_loop_returns_iff (fun w => n_spike (Task5.sim w))).
Qed.

(** The two searches of the script that return, 50 pA upwards and the
    duration search for 400 pA, stop on a run with a spike. *)
Lemma search_returns_iff_a_run_spikes_reference :
  exists fuel v2 v5,
    Task2.find_rheobase reference 1 (pA 50) (pA 1) fuel fuel = Some v2
    /\ Task5.find_min_stimulus_duration reference 0.15 (pA 400) 0.1 0 [] fuel fuel
       = Some v5
    /\ (exists k,
          iterate (Task2.body reference 1 (pA 1) fuel) k
            (Task2.init reference (pA 50)) = Some v2
          /\ t_spike (Task2.sim v2) <> []
          /\ forall j, (j < k)%nat ->
               exists vj, iterate (Task2.body reference 1 (pA 1) fuel) j
                            (Task2.init reference (pA 50)) = Some vj
                          /\ t_spike (Task2.sim vj) = [])
    /\ (exists k,
          iterate (Task5.body reference 0.15 0.1 0 fuel) k
            (Task5.init reference (pA 400) []) = Some v5
          /\ n_spike (Task5.sim v5) <> []
          /\ forall j, (j < k)%nat ->
               exists vj, iterate (Task5.body reference 0.15 0.1 0 fuel) j
                            (Task5.init reference (pA 400) []) = Some vj
                          /\ n_spike (Task5.sim vj) = []).
Proof.
  destruct task2_returns as [n2 H2].
  destruct duration_search_400pA_returns as [n5 H5].
  destruct (H2 (Nat.max n2 n5)) as (v2 & E2 & _); [lia|].
  destruct (H5 (Nat.max n2 n5)) as (v5 & E5 & _); [lia|].
  exists (Nat.max n2 n5), v2, v5. split; [exact E2|]. split; [exact E5|].
  split.
  - exact (proj1 (proj1 (search_returns_iff_a_run_spikes reference 1 (pA 50) (pA 1)
                           0 [] (Nat.max n2 n5)) v2)
             (ex_intro _ (Nat.max n2 n5) E2)).
  - exact (proj1 (proj2 (search_returns_iff_a_run_spikes reference 0.15 (pA 400) 0.1
                           0 [] (Nat.max n2 n5)) v5)
             (ex_intro _ (Nat.max n2 n5) E5)).
Defined.

(** ** The sweep loop of Task 4 *)

Lemma sweep_loop_counts p T n :
  forall currents v0 v,
    for_loop currents (Task4.body p T n) v0 = Some v ->
    exists ks,
      Task4.freq_i v = Task4.freq_i v0 ++ ks
      /\ Forall2 (fun i k => exists s, run_simulation p T (pA i) n = Some s
                                       /\ spike_count s = k) currents ks
      /\ length (Task4.I_syn_i v) = (length (Task4.I_syn_i v0) + length currents)%nat.
Proof.
  induction currents as [|i l IH]; intros v0 v; simpl.
  - intros [= <-]. exists []. rewrite app_nil_r. repeat split; [constructor|lia].
  - unfold Task4.body at 1.
    destruct (run_simulation p T (pA i) n) as [s|] eqn:E; [|discriminate].
    intros H. apply IH in H. destruct H as (ks & Hf & Hk & Hl).
    simpl in Hf, Hl. rewrite length_app in Hl. simpl in Hl.
    exists (spike_count s :: ks). rewrite Hf, <- app_assoc. simpl.
    repeat split; [|lia]. constructor; eauto.
Qed.

(** X3: the list [freq_i] of the sweep holds, in the order of the currents,
    the spike count of one run per current. *)
Theorem sweep_current_counts p T currents n v :
  Task4.sweep_current p T currents n = Some v ->
  Forall2 (fun i k => exists s, run_simulation p T (pA i) n = Some s
                                /\ spike_count s = k) currents (Task4.freq_i v)
  /\ length (Task4.I_syn_i v) = length currents.
Proof.
  intros H. apply sweep_loop_counts in H. destruct H as (ks & Hf & Hk & Hl).
  simpl in Hf, Hl. rewrite Hf. auto.
Qed.

(** A sweep over two currents with a horizon of three steps. *)
Lemma sweep_current_counts_small :
  exists v,
    Task4.sweep_current reference 0.00002 [0; 600]%Z 10 = Some v
    /\ Forall2 (fun i k => exists s, run_simulation reference 0.00002 (pA i) 10 = Some s
                                     /\ spike_count s = k) [0; 600]%Z (Task4.freq_i v)
    /\ length (Task4.I_syn_i v) = length [0; 600]%Z.
Proof.
  eexists. split; [vm_compute; reflexivity|].
  apply (sweep_current_counts reference 0.00002 [0; 600]%Z 10).
  vm_compute. reflexivity.
Defined.

(** The general form of the rheobase result applies to the cell as written. *)
Lemma find_rheobase_reports_next_reference :
  exists fuel v,
    Task2.find_rheobase reference 1 (pA 50) (pA 1) fuel fuel = Some v
    /\ exists k,
         Task2.I_syn v = candidate (pA 50) (pA 1) k + pA 1
         /\ run_simulation reference 1 (candidate (pA 50) (pA 1) k) fuel
            = Some (Task2.sim v)
         /\ t_spike (Task2.sim v) <> []
         /\ forall i, (i < k)%nat ->
              exists s, run_simulation reference 1 (candidate (pA 50) (pA 1) i) fuel
                        = Some s
                        /\ t_spike s = [].
Proof.
  destruct task2_returns as [n H].
  destruct (H n (le_n n)) as (v & E & _).
  exists n, v. split; [exact E|].
  exact (find_rheobase_reports_next reference 1 (pA 50) (pA 1) n n v E).
Defined.

(** At the start of a run the step integrates the bounded profile. *)
Lemma task5_step_current_at_start :
  is_nan (t (Task5.sim (Task5.run_start reference 0.1 (Task5.init reference (pA 400) []))))
  = false
  /\ is_nan (Task5.t_stimuli (Task5.run_start reference 0.1 (Task5.init reference (pA 400) [])))
     = false
  /\ Task5.I_syn (Task5.cut_stimulus
                    (Task5.run_start reference 0.1 (Task5.init reference (pA 400) [])))
     = Task5.bounded
         (Task5.I_syn (Task5.run_start reference 0.1 (Task5.init reference (pA 400) [])))
         (Task5.t_stimuli (Task5.run_start reference 0.1 (Task5.init reference (pA 400) [])))
         (t (Task5.sim (Task5.run_start reference 0.1 (Task5.init reference (pA 400) [])))).
Proof.
  assert (H1 : is_nan (t (Task5.sim (Task5.run_start reference 0.1
                                       (Task5.init reference (pA 400) [])))) = false)
    by (vm_compute; reflexivity).
  assert (H2 : is_nan (Task5.t_stimuli (Task5.run_start reference 0.1
                                          (Task5.init reference (pA 400) []))) = false)
    by (vm_compute; reflexivity).
  exact (conj H1 (conj H2 (task5_step_current _ H1 H2))).
Defined.

(** ** Invariants of a run *)

(** What one step does to each variable. *)
Lemma step_fields p I_syn n_id s :
  let u_new := u (euler_forward p I_syn s) in
  let s' := step p I_syn n_id s in
  t s' = t s + dt p
  /\ t_i s' = t_i s ++ [t s]
  /\ u_i s' = u_i s ++ [u_new]
  /\ t_spike s' = (if geb u_new (u_thres p) then t_spike s ++ [t s] else t_spike s)
  /\ n_spike s' = (if geb u_new (u_thres p) then n_spike s ++ [n_id] else n_spike s)
  /\ u s' = (if geb u_new (u_thres p) then u_reset p else u_new).
Proof.
  cbv zeta. unfold step, spike_condition. simpl.
  destruct (geb _ (u_thres p)); repeat split; reflexivity.
Qed.

(** X4: when a run returns, its lists fit together: one potential sample per
    time sample, one neuron id per spike time, no more spikes than rounds,
    every spike time is one of the recorded times, and every id is 0. *)
Theorem run_lists_consistent (p : Params) (T I_syn : float) (fuel : nat) (s : Sim) :
  run_simulation p T I_syn fuel = Some s ->
  length (u_i s) = length (t_i s)
  /\ length (n_spike s) = length (t_spike s)
  /\ (spike_count s <= length (t_i s))%nat
  /\ incl (t_spike s) (t_i s)
  /\ Forall (eq 0%Z) (n_spike s).
Proof.
  unfold run_simulation, time_loop, spike_count. intros H.
  apply (while_loop_inv _ _
           (fun s => length (u_i s) = length (t_i s)
                     /\ length (n_spike s) = length (t_spike s)
                     /\ (length (t_spike s) <= length (t_i s))%nat
                     /\ incl (t_spike s) (t_i s)
                     /\ Forall (eq 0%Z) (n_spike s))) in H.
  - tauto.
  - intros a a' (Hu & Hn & Hle & Hin & Hid) _ [= <-].
    destruct (step_fields p I_syn 0%Z a) as (_ & Eti & Eui & Ets & Ens & _).
    cbv zeta in *. rewrite Eti, Eui, Ets, Ens.
    destruct (geb _ (u_thres p)); rewrite ?length_app; simpl;
      repeat split; try lia.
    + apply incl_app; [now apply incl_appl|apply incl_appr, incl_refl].
    + apply Forall_app. split; [exact Hid|repeat constructor].
    + now apply incl_appl.
    + exact Hid.
  - simpl. repeat split; auto. apply incl_nil_l.
Qed.

Lemma run_lists_consistent_small :
  exists s,
    run_simulation reference three_rounds microampere 10 = Some s
    /\ spike_count s = 3%nat
    /\ length (u_i s) = length (t_i s)
    /\ length (n_spike s) = length (t_spike s)
    /\ (spike_count s <= length (t_i s))%nat
    /\ incl (t_spike s) (t_i s)
    /\ Forall (eq 0%Z) (n_spike s).
Proof.
  eexists. split; [vm_compute; reflexivity|]. split; [reflexivity|].
  apply (run_lists_consistent reference three_rounds microampere 10).
  vm_compute. reflexivity.
Defined.

(** X5: when a run returns, the recorded potentials that are at or above the
    threshold are exactly as many as the spikes: every spike shows in the
    trace, and nothing else reaches the threshold. *)
Theorem spikes_show_in_trace (p : Params) (T I_syn : float) (fuel : nat) (s : Sim) :
  run_simulation p T I_syn fuel = Some s ->
  length (supra_threshold p (u_i s)) = spike_count s.
Proof.
  unfold run_simulation, time_loop, spike_count, supra_threshold. intros H.
  apply (while_loop_inv _ _
           (fun s => length (filter (fun x => geb x (u_thres p)) (u_i s))
                     = length (t_spike s))) in H.
  - tauto.
  - intros a a' Ha _ [= <-].
    destruct (step_fields p I_syn 0%Z a) as (_ & _ & Eui & Ets & _).
    cbv zeta in *. rewrite Eui, Ets, filter_app, length_app. simpl.
    destruct (geb _ (u_thres p)); rewrite ?length_app; simpl; lia.
  - reflexivity.
Qed.

Lemma spikes_show_in_trace_small :
  exists s,
    run_simulation reference three_rounds microampere 10 = Some s
    /\ length (supra_threshold reference (u_i s)) = spike_count s.
Proof.
  eexists. split; [vm_compute; reflexivity|].
  apply (spikes_show_in_trace reference three_rounds microampere 10).
  vm_compute. reflexivity.
Defined.

(** X6: the clock of a run.  The recorded times are 0, 0 + dt,
    (0 + dt) + dt, ... in this order, each within the horizon; on return
    the clock holds the next value of that sequence, which is beyond the
    horizon. *)
Theorem run_clock (p : Params) (T I_syn : float) (fuel : nat) (s : Sim) :
  run_simulation p T I_syn fuel = Some s ->
  t_i s = map (candidate 0 (dt p)) (seq 0 (length (t_i s)))
  /\ t s = candidate 0 (dt p) (length (t_i s))
  /\ Forall (fun x => (x <=? T) = true) (t_i s)
  /\ (t s <=? T) = false.
Proof.
  unfold run_simulation, time_loop. intros H.
  apply (while_loop_inv _ _
           (fun s => t_i s = map (candidate 0 (dt p)) (seq 0 (length (t_i s)))
                     /\ t s = candidate 0 (dt p) (length (t_i s))
                     /\ Forall (fun x => (x <=? T) = true) (t_i s))) in H.
  - tauto.
  - intros a a' (Hti & Ht & Hle) C [= <-].
    destruct (step_fields p I_syn 0%Z a) as (Et & Eti & _).
    cbv zeta in *. rewrite Et, Eti, length_app. simpl.
    rewrite Nat.add_1_r, seq_S, map_app. simpl.
    repeat split.
    + now rewrite <- Hti, <- Ht.
    + now rewrite Ht.
    + apply Forall_app. split; [exact Hle|]. repeat constructor. exact C.
  - simpl. repeat split; auto.
Qed.

Lemma run_clock_small :
  exists s,
    run_simulation reference three_rounds microampere 10 = Some s
    /\ length (t_i s) = 3%nat
    /\ t_i s = map (candidate 0 (dt reference)) (seq 0 (length (t_i s)))
    /\ t s = candidate 0 (dt reference) (length (t_i s))
    /\ Forall (fun x => (x <=? three_rounds) = true) (t_i s)
    /\ (t s <=? three_rounds) = false.
Proof.
  eexists. split; [vm_compute; reflexivity|]. split; [reflexivity|].
  apply (run_clock reference three_rounds microampere 10).
  vm_compute. reflexivity.
Defined.

(** ** The number of rounds *)





(** ** Zero current *)

(** X8: with the reference parameters and the current 0 the potential never
    leaves [u_rest]: whatever the horizon, every recorded sample is exactly
    [u_rest] and no spike occurs. *)
Theorem zero_current_stays_at_rest (T : float) (fuel : nat) (s : Sim) :
  run_simulation reference T 0 fuel = Some s ->
  t_spike s = [] /\ n_spike s = []
  /\ Forall (eq (u_rest reference)) (u_i s)
  /\ u s = u_rest reference.
Proof.
  unfold run_simulation, time_loop. intros H.
  apply (while_loop_inv _ _
           (fun s => t_spike s = [] /\ n_spike s = []
                     /\ Forall (eq (u_rest reference)) (u_i s)
                     /\ u s = u_rest reference)) in H.
  - tauto.
  - intros a a' (Ht & Hn & Hu & Hr) _ [= <-].
    destruct (step_fields reference 0 0%Z a) as (_ & _ & Eui & Ets & Ens & Eu).
    cbv zeta in *. rewrite (rest_is_fixed _ Hr) in *.
    rewrite rest_below_threshold in *. rewrite Eui, Ets, Ens, Eu.
    repeat split; auto. apply Forall_app. split; [exact Hu|repeat constructor].
  - simpl. repeat split; auto.
Qed.

Lemma zero_current_stays_at_rest_small :
  exists s,
    run_simulation reference three_rounds 0 10 = Some s
    /\ length (u_i s) = 3%nat
    /\ t_spike s = [] /\ n_spike s = []
    /\ Forall (eq (u_rest reference)) (u_i s)
    /\ u s = u_rest reference.
Proof.
  eexists. split; [vm_compute; reflexivity|]. split; [reflexivity|].
  apply (zero_current_stays_at_rest three_rounds 10).
  vm_compute. reflexivity.
Defined.

(** ** The retry loop of Task 3 *)

(** X9: the loop of Task 3 repeats the same run while [t_spike] is empty.
    For a current whose run spikes it returns the count of that one run; for
    a current whose run does not spike it never returns. *)
Theorem task3_count_cases (p : Params) (T : float) (i : Z) (k : nat) :
  (returns (run_simulation p T (pA i)) (fun s => spike_count s = S k) ->
   returns (fun fuel => Task3.count p T fuel fuel i) (eq (S k)))
  /\ (returns (run_simulation p T (pA i)) (fun s => spike_count s = O) ->
      diverges (fun fuel => Task3.count p T fuel fuel i)).
Proof.
  split.
  - intros [n0 H]. exists (Nat.max n0 1). intros n Hn.
    destruct (H n) as (s & E & Hs); [lia|].
    exists (S k). split; [|reflexivity]. unfold Task3.count.
    destruct n as [|n]; [lia|]. cbv zeta. cbn [while_loop t_spike start is_empty].
    change (time_loop p T (pA i) 0%Z (S n) (start p [] []))
      with (run_simulation p T (pA i) (S n)).
    rewrite E.
    assert (C : is_empty (t_spike s) = false).
    { unfold spike_count in Hs. destruct (t_spike s); [discriminate|reflexivity]. }
    destruct n; simpl; rewrite C; simpl; now rewrite Hs.
  - intros H n. unfold Task3.count. cbv zeta.
    rewrite (while_loop_diverges _ _ (fun s => t_spike s = [])); [reflexivity| | |reflexivity].
    + intros s E. now rewrite E.
    + intros s s' E B. rewrite E in B.
      apply length_zero_nil.
      apply (returns_unique _ _ n s' (run_simulation_mono p T (pA i)) H B).
Qed.

(** 250 pA spikes 33 times and 50 pA not at all, with the reference
    parameters. *)
Lemma task3_count_cases_reference :
  returns (run_simulation reference 1 (pA 250)) (fun s => spike_count s = 33%nat)
  /\ returns (run_simulation reference 1 (pA 50)) (fun s => spike_count s = O)
  /\ returns (fun fuel => Task3.count reference 1 fuel fuel 250) (eq 33%nat)
  /\ diverges (fun fuel => Task3.count reference 1 fuel fuel 50).
Proof.
  assert (H1 : returns (run_simulation reference 1 (pA 250))
                       (fun s => spike_count s = 33%nat))
    by (apply run_simulation_count; vm_compute; reflexivity).
  pose proof silent_50pA as H2.
  exact (conj H1 (conj H2
           (conj (proj1 (task3_count_cases reference 1 250 32) H1)
                 (proj2 (task3_count_cases reference 1 50 0) H2)))).
Defined.

(** ** The amplitude of Task 5 across steps and runs *)

(** X10: in Task 5 the value 0 of [I_syn] is absorbing: a run that starts
    with [I_syn = 0] ends with [I_syn = 0], whatever the cutoff. *)
Theorem zero_amplitude_is_kept (p : Params) (T d : float) (index fuel : nat)
    (v v' : Task5.Vars) :
  Task5.I_syn v = 0 ->
  Task5.body p T d index fuel v = Some v' ->
  Task5.I_syn v' = 0.
Proof.
  intros HI H. unfold Task5.body in H.
  apply (while_loop_inv _ _ (fun w => Task5.I_syn w = 0)) in H; [tauto| |exact HI].
  intros s s' Hs _ [= <-].
  destruct (task5_step_fields p index 0%Z s) as (_ & _ & _ & _ & EI & _).
  cbv zeta in EI. rewrite EI, Hs. now destruct (geb _ _).
Qed.

Lemma zero_amplitude_is_kept_small :
  exists v',
    Task5.I_syn (Task5.init reference 0 []) = 0
    /\ Task5.body reference three_rounds 0.1 0 10 (Task5.init reference 0 []) = Some v'
    /\ Task5.I_syn v' = 0.
Proof.
  assert (H : exists v', Task5.body reference three_rounds 0.1 0 10
                           (Task5.init reference 0 []) = Some v')
    by (eexists; vm_compute; reflexivity).
  destruct H as [v' H]. exists v'.
  exact (conj eq_refl
           (conj H (zero_amplitude_is_kept reference three_rounds 0.1 0 10
                      (Task5.init reference 0 []) v' eq_refl H))).
Defined.

(** A run of Task 5 with the reference parameters that starts with
    [I_syn = 0] and no spike so far stays at rest and leaves [t_st] alone. *)
Lemma task5_rest_run T d index n v v' :
  Task5.I_syn v = 0 -> n_spike (Task5.sim v) = [] ->
  Task5.body reference T d index n v = Some v' ->
  Task5.I_syn v' = 0 /\ n_spike (Task5.sim v') = [] /\ Task5.t_st v' = Task5.t_st v.
Proof.
  intros HI Hn H. unfold Task5.body in H.
  apply (while_loop_inv _ _
           (fun w => Task5.I_syn w = 0 /\ u (Task5.sim w) = u_rest reference
                     /\ n_spike (Task5.sim w) = [] /\ Task5.t_st w = Task5.t_st v)) in H.
  - tauto.
  - intros s s' (SI & Su & Sn & Ss) _ [= <-].
    destruct (task5_step_fields reference index 0%Z s) as (_ & En & Est & _ & EI & Eu).
    cbv zeta in *.
    assert (I0 : (if geb (t (Task5.sim s)) (Task5.t_stimuli s) then 0
                  else Task5.I_syn s) = 0)
      by (destruct (geb (t (Task5.sim s)) (Task5.t_stimuli s)); [reflexivity|exact SI]).
    rewrite I0 in *. rewrite (rest_is_fixed _ Su) in *.
    rewrite rest_below_threshold in *. cbn [andb] in Est.
    rewrite EI, Eu, En, Est. auto.
  - unfold Task5.run_start. simpl. auto.
Qed.

(** X11: with the reference parameters, once a run of the duration search
    has ended without a spike and with [I_syn] overwritten by 0, the search
    never returns: all later runs have no stimulus. *)
Theorem search_without_stimulus_diverges (T d : float) (index : nat) (v : Task5.Vars) :
  Task5.I_syn v = 0 -> n_spike (Task5.sim v) = [] ->
  forall fs fuel,
    while_loop fs (fun w => is_empty (n_spike (Task5.sim w)))
      (Task5.body reference T d index fuel) v = None.
Proof.
  intros HI Hn fs fuel.
  apply (while_loop_diverges _ _
           (fun w => Task5.I_syn w = 0 /\ n_spike (Task5.sim w) = [])).
  - intros w [_ E]. now rewrite E.
  - intros w w' [WI Wn] B.
    destruct (task5_rest_run T d index fuel w w' WI Wn B) as (? & ? & _). auto.
  - auto.
Qed.

(** The state after the first run of the search for 160 pA is such a
    state. *)
Lemma search_without_stimulus_diverges_160pA :
  exists fuel v,
    Task5.body reference 0.15 0.1 0 fuel (Task5.init reference (pA 160) []) = Some v
    /\ Task5.I_syn v = 0 /\ n_spike (Task5.sim v) = []
    /\ forall fs fuel',
         while_loop fs (fun w => is_empty (n_spike (Task5.sim w)))
           (Task5.body reference 0.15 0.1 0 fuel') v = None.
Proof.
  destruct first_run_160pA as [n H].
  destruct (H n (le_n n)) as (v & E & HI & Hn & _).
  exists n, v. split; [exact E|]. split; [exact HI|]. split; [exact Hn|].
  exact (search_without_stimulus_diverges 0.15 0.1 0 v HI Hn).
Defined.

(** ** The loop of Task 5 over the currents *)

(** A search that returns has appended exactly one value to [t_st]. *)
Lemma duration_search_appends_one p T I d index t_st0 fs n v :
  length t_st0 = index ->
  Task5.find_min_stimulus_duration p T I d index t_st0 fs n = Some v ->
  exists x, Task5.t_st v = t_st0 ++ [x].
Proof.
  intros L H. unfold Task5.find_min_stimulus_duration in H.
  apply (while_loop_inv _ _
           (fun w => nothing_reported t_st0 w \/ first_spike_reported t_st0 w)) in H.
  - destruct H as [[(En & _)|(x & rest & _ & Es & _)] C]; [|eauto].
    rewrite En in C. discriminate.
  - intros s s' Hi C B.
    assert (En : n_spike (Task5.sim s) = [])
      by (destruct (n_spike (Task5.sim s)); [reflexivity|discriminate]).
    destruct Hi as [(_ & _ & Es)|(x & rest & _ & _ & Ne)]; [|congruence].
    apply (task5_body_inv p T d index t_st0 L n s s' En Es B).
  - left. repeat split.
Qed.

Lemma duration_loop_length p T d n :
  forall currents a l0 l,
    length l0 = a ->
    for_loop (combine (seq a (length currents)) currents)
      (fun '(index, i) t_st0 =>
         option_map Task5.t_st
           (Task5.find_min_stimulus_duration p T (pA i) d index t_st0 n n)) l0
    = Some l ->
    length l = (a + length currents)%nat.
Proof.
  induction currents as [|i currents IH]; intros a l0 l L; simpl.
  - intros [= <-]. lia.
  - destruct (Task5.find_min_stimulus_duration p T (pA i) d a l0 n n) as [v|] eqn:E;
      [|discriminate].
    simpl. intros H.
    destruct (duration_search_appends_one _ _ _ _ _ _ _ _ _ L E) as [x Hx].
    apply (IH (S a)) in H; [lia|].
    rewrite Hx, length_app. simpl. lia.
Qed.

(** X12: when the loop of Task 5 over a list of currents returns, [t_st]
    holds exactly one value per current: the guard [len(t_st) < index+1]
    lets each search append its first spike time once and never again. *)
Theorem duration_sweep_one_per_current (p : Params) (T d : float)
    (currents : list Z) (fuel : nat) (l : list float) :
  duration_sweep p T d currents fuel = Some l ->
  length l = length currents.
Proof.
  unfold duration_sweep, Task5.enumerate. intros H.
  apply (duration_loop_length p T d fuel currents 0 [] l eq_refl H).
Qed.

Lemma for_loop_ext {A St : Type} (f g : A -> St -> option St) :
  (forall x s, f x s = g x s) ->
  forall xs s, for_loop xs f s = for_loop xs g s.
Proof.
  intros E. induction xs as [|x xs IH]; intros s; simpl; [reflexivity|].
  rewrite E. destruct (g x s); [apply IH|reflexivity].
Qed.

Lemma for_loop_mono {A St : Type} (f g : A -> St -> option St) :
  (forall x s r, f x s = Some r -> g x s = Some r) ->
  forall xs s r, for_loop xs f s = Some r -> for_loop xs g s = Some r.
Proof.
  intros E. induction xs as [|x xs IH]; intros s r; simpl; [auto|].
  destruct (f x s) as [s1|] eqn:F; [|discriminate].
  rewrite (E _ _ _ F). apply IH.
Qed.

Lemma duration_sweep_core p T d currents n :
  duration_sweep p T d currents n = core_duration_sweep p T d currents n.
Proof.
  unfold duration_sweep, core_duration_sweep. apply for_loop_ext.
  intros [index i] s. rewrite <- core5_ok.
  now destruct (Task5.find_min_stimulus_duration _ _ _ _ _ _ _ _).
Qed.

Lemma find_min_mono p T I d index t_st0 n n' v :
  (n <= n')%nat ->
  Task5.find_min_stimulus_duration p T I d index t_st0 n n = Some v ->
  Task5.find_min_stimulus_duration p T I d index t_st0 n' n' = Some v.
Proof. apply find_min_stimulus_duration_mono. Qed.

Lemma duration_sweep_mono p T d currents n n' l :
  (n <= n')%nat ->
  duration_sweep p T d currents n = Some l ->
  duration_sweep p T d currents n' = Some l.
Proof.
  intros Hle. unfold duration_sweep. apply for_loop_mono.
  intros [index i] s r.
  destruct (Task5.find_min_stimulus_duration p T (pA i) d index s n n) as [v|] eqn:E;
    [|discriminate].
  intros [= <-]. now rewrite (find_min_mono _ _ _ _ _ _ _ _ _ Hle E).
Qed.

Lemma task5_evaluated :
  match core_duration_sweep reference 0.15 0.1 Task5.currents enough with
  | Some [x200; x400; x600] =>
      (0.046 <? x200) && (x200 <? 0.047)
      && (0.015 <? x400) && (x400 <? 0.016)
      && (0.009 <? x600) && (x600 <? 0.010)
      && (0.010 <? x400) && (x400 <? 0.020)
      && (x600 <? x400) && (x400 <? x200)
  | _ => false
  end = true.
Proof. vm_compute. reflexivity. Qed.

(** The loop of Task 5 with the values of the script, evaluated. *)
Lemma duration_sweep_script_returns :
  returns (duration_sweep reference 0.15 0.1 Task5.currents)
    (fun l => exists x200 x400 x600,
       l = [x200; x400; x600]
       /\ (0.046 <? x200) = true /\ (x200 <? 0.047) = true
       /\ (0.015 <? x400) = true /\ (x400 <? 0.016) = true
       /\ (0.009 <? x600) = true /\ (x600 <? 0.010) = true
       /\ (0.010 <? x400) = true /\ (x400 <? 0.020) = true
       /\ (x600 <? x400) = true /\ (x400 <? x200) = true).
Proof.
  exists enough. intros n Hn. pose proof task5_evaluated as H.
  rewrite <- duration_sweep_core in H.
  destruct (duration_sweep reference 0.15 0.1 Task5.currents enough)
    as [[|x200 [|x400 [|x600 [|y l]]]]|] eqn:E;
    try (exfalso; exact (diff_false_true H)).
  exists [x200; x400; x600].
  split; [exact (duration_sweep_mono _ _ _ _ enough n _ Hn E)|].
  repeat (apply andb_prop in H; destruct H as [H ?]).
  exists x200, x400, x600. repeat split; assumption.
Qed.

Lemma duration_sweep_one_per_current_script :
  exists fuel l,
    duration_sweep reference 0.15 0.1 Task5.currents fuel = Some l
    /\ length l = length Task5.currents.
Proof.
  destruct duration_sweep_script_returns as [n H].
  destruct (H n (le_n n)) as (l & E & _).
  exists n, l. split; [exact E|].
  exact (duration_sweep_one_per_current reference 0.15 0.1 Task5.currents n l E).
Defined.

(** ** The rheobase search finds the first spiking candidate *)

(** X13: if the runs of the candidates before the [k]-th return without a
    spike and the run of the [k]-th returns with one, the rheobase search
    returns as soon as it may run more than [k] rounds; it leaves the lists
    of that run in the variables and [I_syn] at the candidate after the
    [k]-th. *)
Theorem find_rheobase_stops_at_first_spiking (p : Params) (T start_I step_I : float)
    (fuel k : nat) (s : Sim) :
  (forall j, (j < k)%nat ->
     exists sj, run_simulation p T (candidate start_I step_I j) fuel = Some sj
                /\ t_spike sj = []) ->
  run_simulation p T (candidate start_I step_I k) fuel = Some s ->
  t_spike s <> [] ->
  forall fs, (k < fs)%nat ->
    Task2.find_rheobase p T start_I step_I fs fuel
    = Some {| Task2.I_syn := candidate start_I step_I (S k); Task2.sim := s |}.
Proof.
  intros Hsil Hk Hne fs Hfs. unfold Task2.find_rheobase.
  apply (rheobase_loop_returns p T start_I step_I fuel k s Hsil Hk Hne k O);
    [lia|exact Hfs|reflexivity|reflexivity].
Qed.

(** A search from 0 A in steps of 1 microampere over three rounds: 0 A is
    silent, 1 microampere spikes. *)
Lemma find_rheobase_stops_at_first_spiking_small :
  exists s,
    (forall j, (j < 1)%nat ->
       exists sj, run_simulation reference three_rounds
                    (candidate 0 microampere j) 10 = Some sj
                  /\ t_spike sj = [])
    /\ run_simulation reference three_rounds (candidate 0 microampere 1) 10 = Some s
    /\ t_spike s <> []
    /\ Task2.find_rheobase reference three_rounds 0 microampere 2 10
       = Some {| Task2.I_syn := candidate 0 microampere 2; Task2.sim := s |}.
Proof.
  assert (H0 : forall j, (j < 1)%nat ->
             exists sj, run_simulation reference three_rounds
                          (candidate 0 microampere j) 10 = Some sj
                        /\ t_spike sj = []).
  { intros j Hj. replace j with O by lia.
    eexists. split; [vm_compute; reflexivity|reflexivity]. }
  assert (H1 : exists s, run_simulation reference three_rounds
                           (candidate 0 microampere 1) 10 = Some s
                         /\ t_spike s <> []).
  { eexists. split; [vm_compute; reflexivity|discriminate]. }
  destruct H1 as (s & H1 & H2). exists s.
  exact (conj H0 (conj H1 (conj H2
           (find_rheobase_stops_at_first_spiking reference three_rounds 0 microampere
              10 1 s H0 H1 H2 2 (le_n 2))))).
Defined.

(** ** The checks the notebook states *)

Lemma task1_evaluated :
  match core_loop reference 1 (pA 50) enough (core_start reference 0 0) with
  | Some c => Nat.eqb (c_t_spike c) 0 && (-0.061 <? c_u c) && (c_u c <? -0.060)
  | None => false
  end = true.
Proof. vm_compute. reflexivity. Qed.

(** X14: the cells as written meet the checks their task texts state.
    Task 1 (50 pA) ends without a spike at a potential between -61 mV and
    -60 mV; the value Task 2 prints is between 150 and 160 pA, although it
    is one step above the first spiking current; the value Task 5 reports
    for 400 pA is between 10 ms and 20 ms, and it reports one value for
    each of its three currents. *)
Theorem script_meets_its_checks :
  returns (run_simulation reference 1 (pA 50))
    (fun s => t_spike s = []
              /\ (-0.061 <? u s) = true /\ (u s <? -0.060) = true)
  /\ returns Task2.task2
       (fun v => (150 <? printed_pA (Task2.I_syn v)) = true
                 /\ (printed_pA (Task2.I_syn v) <? 160) = true)
  /\ returns Task5.task5
       (fun l => exists x200 x400 x600,
          l = [x200; x400; x600]
          /\ (0.010 <? x400) = true /\ (x400 <? 0.020) = true
          /\ (x600 <? x400) = true /\ (x400 <? x200) = true).
Proof.
  split; [|split].
  - apply (returns_by_core core _
             (fun n => core_loop reference 1 (pA 50) n (core_start reference 0 0)) _
             (fun c => Nat.eqb (c_t_spike c) 0 && (-0.061 <? c_u c) && (c_u c <? -0.060))
             enough).
    + intros n. apply run_simulation_core.
    + intros n n' a. apply run_simulation_mono.
    + exact task1_evaluated.
    + intros a E. unfold core in E. simpl in E.
      repeat (apply andb_prop in E; destruct E as [E ?]).
      apply Nat.eqb_eq in E. repeat split; auto using length_zero_nil.
  - destruct task2_returns as [n H]. exists n. intros m Hm.
    destruct (H m Hm) as (v & E & HI & _). exists v. split; [exact E|].
    rewrite HI. split; vm_compute; reflexivity.
  - destruct duration_sweep_script_returns as [n H]. exists n. intros m Hm.
    destruct (H m Hm)
      as (l & E & x200 & x400 & x600 & -> & _ & _ & _ & _ & _ & _ & B1 & B2 & C1 & C2).
    exists [x200; x400; x600]. split; [exact E|].
    exists x200, x400, x600. repeat split; assumption.
Qed.

(** ** The f-I curve of Task 4 *)

Lemma sweep_loop_returns p T n :
  forall currents v0,
    (forall i, In i currents -> exists s, run_simulation p T (pA i) n = Some s) ->
    exists v, for_loop currents (Task4.body p T n) v0 = Some v.
Proof.
  induction currents as [|i l IH]; intros v0 H; simpl; [eauto|].
  unfold Task4.body at 1.
  destruct (H i) as [s E]; [now left|]. rewrite E.
  apply IH. intros j Hj. apply H. now right.
Qed.

Lemma Forall2_combine_in {A B : Type} (R : A -> B -> Prop) (l : list A) (k : list B) :
  Forall2 R l k -> forall a b, In (a, b) (combine l k) -> R a b.
Proof.
  induction 1 as [|x y l k Hxy _ IH]; simpl; [tauto|].
  intros a b [[= <- <-]|Hin]; auto.
Qed.

Lemma range_in lo hi i : In i (Task4.range lo hi) -> (lo <= i < hi)%Z.
Proof.
  unfold Task4.range. rewrite in_map_iff. intros (k & <- & Hk).
  apply in_seq in Hk. lia.
Qed.

Lemma range_length lo hi : length (Task4.range lo hi) = Z.to_nat (hi - lo).
Proof. unfold Task4.range. now rewrite length_map, length_seq. Qed.

Lemma sweep_currents_increasing : increasing_currents (Task4.range 0 601) = true.
Proof. vm_cast_no_check (eq_refl true). Qed.

(** The counts at 157 pA, 158 pA and 600 pA. *)
Lemma sweep_counts_evaluated :
  core_count reference 1 (pA 157) enough = Some 0%nat
  /\ core_count reference 1 (pA 158) enough = Some 4%nat
  /\ core_count reference 1 (pA 600) enough = Some 109%nat.
Proof. vm_compute. repeat split; reflexivity. Qed.

(** With enough fuel the count of a run is its number of whole periods. *)
Lemma run_count_is_period i n s N :
  ticks (dt reference) 1 enough 0 0 = Some N -> (enough <= n)%nat ->
  run_simulation reference 1 (pA i) n = Some s ->
  spike_count s = period_count reference N (pA i).
Proof.
  intros HN Hn E.
  destruct (run_simulation_at reference 1 (pA i) _ n
              (core_count_by_period reference 1 (pA i) N eq_refl HN) Hn)
    as (s' & E' & C').
  rewrite E in E'. injection E' as <-. exact C'.
Qed.

(** The table, read for two swept currents. *)
Lemma sweep_table_ordered i1 i2 N :
  ticks (dt reference) 1 enough 0 0 = Some N ->
  In i1 (Task4.range 0 601) -> In i2 (Task4.range 0 601) ->
  (pA i1 <=? pA i2) = true ->
  (period_count reference N (pA i1) <= period_count reference N (pA i2))%nat.
Proof.
  intros HN H1 H2 G.
  pose proof sweep_table_monotone as M. unfold monotone_table, sweep_table in M.
  rewrite HN in M. cbv zeta in M.
  rewrite forallb_forall in M.
  specialize (M _ (in_map (fun i => (pA i, period_count_Z reference N (Z.of_nat N) (pA i)))
                     _ _ H1)).
  rewrite forallb_forall in M.
  specialize (M _ (in_map (fun i => (pA i, period_count_Z reference N (Z.of_nat N) (pA i)))
                     _ _ H2)).
  cbn [fst snd] in M. rewrite G in M. cbn [implb] in M.
  rewrite !period_count_Z_ok in M. apply Z.leb_le in M. lia.
Qed.

Lemma increasing_currents_sound l :
  increasing_currents l = true ->
  forall i1 i2, In i1 l -> In i2 l -> (i1 <= i2)%Z -> (pA i1 <=? pA i2) = true.
Proof.
  unfold increasing_currents. intros G i1 i2 H1 H2 Hle.
  rewrite forallb_forall in G. specialize (G i1 H1).
  rewrite forallb_forall in G. specialize (G i2 H2).
  apply Z.leb_le in Hle. rewrite Hle in G. exact G.
Qed.

Lemma sweep_currents_ordered i1 i2 :
  In i1 (Task4.range 0 601) -> In i2 (Task4.range 0 601) -> (i1 <= i2)%Z ->
  (pA i1 <=? pA i2) = true.
Proof. exact (increasing_currents_sound _ sweep_currents_increasing i1 i2). Qed.

(** The count of the run of a swept current, for every fuel from [enough]
    on, with the order of the counts. *)
Lemma sweep_counts_ordered i1 i2 n n1 n2 s1 s2 :
  In i1 (Task4.range 0 601) -> In i2 (Task4.range 0 601) -> (i1 <= i2)%Z ->
  (enough <= n)%nat ->
  run_simulation reference 1 (pA i1) n = Some s1 -> spike_count s1 = n1 ->
  run_simulation reference 1 (pA i2) n = Some s2 -> spike_count s2 = n2 ->
  (n1 <= n2)%nat.
Proof.
  intros H1 H2 Hle Hn E1 C1 E2 C2.
  destruct reference_rounds as [N HN].
  rewrite <- C1, <- C2.
  rewrite (run_count_is_period _ _ _ _ HN Hn E1), (run_count_is_period _ _ _ _ HN Hn E2).
  apply (sweep_table_ordered _ _ _ HN H1 H2).
  now apply sweep_currents_ordered.
Qed.

(** X15: the sweep of Task 4 as written returns with 601 entries in
    [freq_i] and in [I_syn_i]; along the swept currents the counts never
    decrease, they are 0 up to 157 pA, at least 4 from 158 pA on, and at
    most 109, the count at 600 pA. *)
Theorem task4_curve :
  returns Task4.task4
    (fun v =>
       length (Task4.freq_i v) = 601%nat
       /\ length (Task4.I_syn_i v) = 601%nat
       /\ (forall i1 i2 n1 n2,
             In (i1, n1) (combine (Task4.range 0 601) (Task4.freq_i v)) ->
             In (i2, n2) (combine (Task4.range 0 601) (Task4.freq_i v)) ->
             (i1 <= i2)%Z -> (n1 <= n2)%nat)
       /\ (forall i n,
             In (i, n) (combine (Task4.range 0 601) (Task4.freq_i v)) ->
             ((i <= 157)%Z -> n = 0%nat)
             /\ ((158 <= i)%Z -> (4 <= n <= 109)%nat))).
Proof.
  exists enough. intros n Hn.
  destruct reference_rounds as [N HN].
  assert (R : forall i, exists s, run_simulation reference 1 (pA i) n = Some s).
  { intros i.
    destruct (run_simulation_at reference 1 (pA i) _ n
                (core_count_by_period reference 1 (pA i) N eq_refl HN) Hn)
      as (s & E & _). eauto. }
  destruct (sweep_loop_returns reference 1 n (Task4.range 0 601)
              {| Task4.I_syn_i := []; Task4.freq_i := [] |} (fun i _ => R i))
    as [v E].
  exists v. split; [exact E|].
  destruct (sweep_loop_counts reference 1 n _ _ _ E) as (ks & Hf & Hk & Hl).
  cbn [Task4.freq_i Task4.I_syn_i app length Nat.add] in Hf, Hl.
  rewrite Hf, Hl, range_length.
  assert (Hlen : length ks = 601%nat).
  { rewrite <- (Forall2_length Hk), range_length. reflexivity. }
  pose proof (Forall2_combine_in _ _ _ Hk) as Hin.
  destruct sweep_counts_evaluated as (C157 & C158 & C600).
  destruct (run_simulation_at _ _ _ _ n C157 Hn) as (s157 & E157 & K157).
  destruct (run_simulation_at _ _ _ _ n C158 Hn) as (s158 & E158 & K158).
  destruct (run_simulation_at _ _ _ _ n C600 Hn) as (s600 & E600 & K600).
  split; [exact Hlen|]. split; [reflexivity|]. split.
  - intros i1 i2 n1 n2 H1 H2 Hle.
    destruct (Hin _ _ H1) as (s1 & E1 & C1). destruct (Hin _ _ H2) as (s2 & E2 & C2).
    apply in_combine_l in H1, H2.
    exact (sweep_counts_ordered i1 i2 n n1 n2 s1 s2 H1 H2 Hle Hn E1 C1 E2 C2).
  - intros i m H. destruct (Hin _ _ H) as (s & Es & Cs).
    apply in_combine_l in H. pose proof (range_in _ _ _ H) as Hr.
    split; intros Hi.
    + assert ((m <= 0)%nat); [|lia].
      apply (sweep_counts_ordered i 157 n m 0 s s157 H); auto.
      apply in_range. lia.
    + split.
      * apply (sweep_counts_ordered 158 i n 4 m s158 s); auto.
        apply in_range. lia.
      * apply (sweep_counts_ordered i 600 n m 109 s s600 H); auto; try lia.
        apply in_range. lia.
Qed.
